(** * A shallow embedding of sitemap.js ([src/lib/sitemap.ts])

    The module covers the entry normaliser [Sitemap.normalizeURL], the
    in-memory document [Sitemap] (its URL map, its serialisation cache and
    the xmlbuilder tree it serialises) and the streaming emitter
    [SitemapStream].  JavaScript objects handed in by the caller are modelled
    as values that the normaliser threads through a small state-and-error
    monad, so that its writes to the caller's object stay visible.

    The collaborators the file cannot see (WHATWG [URL], [fs.statSync],
    [Date], [parseFloat], and the repository's [validateSMIOptions] and
    [SitemapItem]) are fields of the class [Runtime]. *)

From Stdlib Require Import String Ascii List ZArith Bool Floats Lia DecimalString.
Import ListNotations.
Open Scope string_scope.

(* ------------------------------------------------------------------ *)
(** ** Types ([./types]) *)

Inductive ErrorLevel := SILENT | WARN | THROW.

Inductive EnumYesNo := YES | NO | Yes | No | yes | no.

(** A video flag as the caller may give it: a native boolean or an
    already-encoded yes/no value. *)
Inductive BoolOrYesNo := BBool (b : bool) | BYesNo (e : EnumYesNo).

Record ISitemapImg := mkImg {
  img_url : string;
  img_caption : option string;
  img_title : option string;
  img_geoLocation : option string;
  img_license : option string
}.

(** One element of an [img] array: a bare URL string or an image object. *)
Inductive ImgElem := ImgElemStr (s : string) | ImgElemObj (i : ISitemapImg).

(** The [img] field of a loose entry: a string, an object or an array. *)
Inductive ImgField :=
| ImgStr (s : string)
| ImgObj (i : ISitemapImg)
| ImgArr (l : list ImgElem).

Record ILinkItem := mkLink { link_lang : string; link_url : string }.

Inductive TagField := TagOne (s : string) | TagArr (l : list string).
Inductive RatingField := RatingNum (f : float) | RatingStr (s : string).
Inductive ViewCountField := ViewCountNum (f : float) | ViewCountStr (s : string).

(** A video as the caller supplies it. *)
Record IVideoItemLoose := mkVideoLoose {
  vl_thumbnail_loc : string;
  vl_title : string;
  vl_description : string;
  vl_content_loc : option string;
  vl_player_loc : option string;
  vl_family_friendly : option BoolOrYesNo;
  vl_live : option BoolOrYesNo;
  vl_requires_subscription : option BoolOrYesNo;
  vl_tag : option TagField;
  vl_rating : option RatingField;
  vl_view_count : option ViewCountField
}.

Inductive VideoField := VideoOne (v : IVideoItemLoose) | VideoArr (l : list IVideoItemLoose).

(** A video of a strict entry. *)
Record IVideoItem := mkVideo {
  v_thumbnail_loc : string;
  v_title : string;
  v_description : string;
  v_content_loc : option string;
  v_player_loc : option string;
  v_family_friendly : option EnumYesNo;
  v_live : option EnumYesNo;
  v_requires_subscription : option EnumYesNo;
  v_tag : list string;
  v_rating : option float;
  v_view_count : option string
}.

(** [ISitemapItemOptionsLoose]: the object a caller passes in. *)
Record ISitemapItemOptionsLoose := mkLoose {
  l_url : string;
  l_img : option ImgField;
  l_video : option VideoField;
  l_links : option (list ILinkItem);
  l_lastmod : option string;
  l_lastmodISO : option string;
  l_lastmodfile : option string;
  l_changefreq : option string;
  l_priority : option float
}.

(** [string | ISitemapItemOptionsLoose]. *)
Inductive LooseInput := LStr (s : string) | LObj (o : ISitemapItemOptionsLoose).

(** [SitemapItemOptions]: the strict entry. *)
Record SitemapItemOptions := mkSMI {
  url : string;
  img : list ISitemapImg;
  video : list IVideoItem;
  links : list ILinkItem;
  lastmod : option string;
  lastmodISO : option string;
  lastmodfile : option string;
  changefreq : option string;
  priority : option float
}.

(** Writes to the two fields of the caller's object that [normalizeURL]
    assigns. *)
Definition set_l_img (v : option ImgField) (o : ISitemapItemOptionsLoose) :=
  mkLoose (l_url o) v (l_video o) (l_links o) (l_lastmod o) (l_lastmodISO o)
    (l_lastmodfile o) (l_changefreq o) (l_priority o).

Definition set_l_video (v : option VideoField) (o : ISitemapItemOptionsLoose) :=
  mkLoose (l_url o) (l_img o) v (l_links o) (l_lastmod o) (l_lastmodISO o)
    (l_lastmodfile o) (l_changefreq o) (l_priority o).

Definition set_img_url (u : string) (i : ISitemapImg) :=
  mkImg u (img_caption i) (img_title i) (img_geoLocation i) (img_license i).

Definition set_link_url (u : string) (l : ILinkItem) := mkLink (link_lang l) u.

(** JavaScript truthiness of an optional string: [undefined] and the empty
    string are falsy. *)
Definition truthy_str (s : option string) : bool :=
  match s with
  | Some s => negb (String.eqb s EmptyString)
  | None => false
  end.

(** Truthiness of the [img] field: only the empty string is falsy. *)
Definition img_truthy (f : ImgField) : bool :=
  match f with
  | ImgStr s => negb (String.eqb s EmptyString)
  | _ => true
  end.

(* ------------------------------------------------------------------ *)
(** ** Collaborators *)

(** A URL has a scheme: [ALPHA *( ALPHA / DIGIT / "+" / "-" / "." ) ":"]. *)
Definition is_alpha (c : ascii) : bool :=
  let n := nat_of_ascii c in (((65 <=? n) && (n <=? 90)) || ((97 <=? n) && (n <=? 122)))%nat.

Definition is_scheme_char (c : ascii) : bool :=
  let n := nat_of_ascii c in
  (is_alpha c || ((48 <=? n) && (n <=? 57)) || (n =? 43) || (n =? 45) || (n =? 46))%nat.

Fixpoint scheme_rest (s : string) : bool :=
  match s with
  | EmptyString => false
  | String c t => if (nat_of_ascii c =? 58)%nat then true
                  else if is_scheme_char c then scheme_rest t else false
  end.

Definition is_absolute (s : string) : bool :=
  match s with
  | EmptyString => false
  | String c t => is_alpha c && scheme_rest t
  end.

Class Runtime := {
  (** [(new URL(u, base)).toString()]; [None] when the constructor throws.
      Its result is always an absolute URL. *)
  url_resolve : string -> option string -> option string;
  url_resolve_absolute :
    forall u b r, url_resolve u b = Some r -> is_absolute r = true;
  (** [(new Date(statSync(p).mtime)).toISOString()]. *)
  stat_mtime_iso : string -> option string;
  (** [(new Date(s)).toISOString()]; [None] on an invalid date. *)
  date_iso : string -> option string;
  parse_float : string -> float;
  (** [\'\' + n] for a number [n]. *)
  number_to_string : float -> string;
  (** [validateSMIOptions(conf, level)] of [./utils]: [false] when it throws. *)
  validateSMIOptions : SitemapItemOptions -> option ErrorLevel -> bool;
  (** [SitemapItem.justItem(smi, level)]: the entry's XML fragment. *)
  justItem : SitemapItemOptions -> ErrorLevel -> option string;
  (** [new SitemapItem(smi, root).buildXML()]: the [<url>] element it
      appends to the root (validation there runs at level WARN and so never
      throws). *)
  buildXML : SitemapItemOptions -> string
}.

(* ------------------------------------------------------------------ *)
(** ** The normaliser's effect: writes to the caller's object, and throws *)

Definition Norm (A : Type) :=
  ISitemapItemOptionsLoose -> ISitemapItemOptionsLoose * option A.

Definition nret {A} (a : A) : Norm A := fun o => (o, Some a).

Definition nbind {A B} (m : Norm A) (k : A -> Norm B) : Norm B :=
  fun o => match m o with
           | (o', Some a) => k a o'
           | (o', None) => (o', None)
           end.

Definition nget : Norm ISitemapItemOptionsLoose := fun o => (o, Some o).

Definition nmodify (f : ISitemapItemOptionsLoose -> ISitemapItemOptionsLoose) : Norm unit :=
  fun o => (f o, Some tt).

(** Lift a call that may throw. *)
Definition nlift {A} (x : option A) : Norm A := fun o => (o, x).

Notation "x <- m ;; k" := (nbind m (fun x => k))
  (at level 61, m at next level, right associativity).
Notation "m ;;; k" := (nbind m (fun _ => k))
  (at level 61, right associativity).

Fixpoint omap {A B} (f : A -> option B) (l : list A) : option (list B) :=
  match l with
  | [] => Some []
  | x :: t => match f x with
              | Some y => match omap f t with Some ys => Some (y :: ys) | None => None end
              | None => None
              end
  end.

(* ------------------------------------------------------------------ *)
(** ** [Sitemap.normalizeURL] *)

Section Normalize.
Context {RT : Runtime}.

Definition boolToYESNO (b : option BoolOrYesNo) : option EnumYesNo :=
  match b with
  | None => None
  | Some (BBool true) => Some yes
  | Some (BBool false) => Some no
  | Some (BYesNo e) => Some e
  end.

(** The array [smiLoose.img] holds after lines 237-243. *)
Definition img_as_array (f : ImgField) : list ImgElem :=
  match f with
  | ImgStr s => [ImgElemObj (mkImg s None None None None)]
  | ImgObj i => [ImgElemObj i]
  | ImgArr l => l
  end.

Definition img_elem_obj (e : ImgElem) : ISitemapImg :=
  match e with
  | ImgElemStr s => mkImg s None None None None
  | ImgElemObj i => i
  end.

(** Lines 236-246: the write to [smiLoose.img] and the list it yields. *)
Definition normalize_img : Norm (list ISitemapImg) :=
  o <- nget ;;
  match l_img o with
  | Some f =>
      if img_truthy f then
        (match f with
         | ImgArr _ => nret tt
         | _ => nmodify (set_l_img (Some (ImgArr (img_as_array f))))
         end) ;;;
        nret (map img_elem_obj (img_as_array f))
      else nret []
  | None => nret []
  end.

Definition resolve_img (hostname : option string) (el : ISitemapImg) : option ISitemapImg :=
  match url_resolve (img_url el) hostname with
  | Some u => Some (set_img_url u el)
  | None => None
  end.

Definition resolve_link (hostname : option string) (l : ILinkItem) : option ILinkItem :=
  match url_resolve (link_url l) hostname with
  | Some u => Some (set_link_url u l)
  | None => None
  end.

(** Lines 266-293: one video. *)
Definition normalize_video (v : IVideoItemLoose) : IVideoItem :=
  mkVideo (vl_thumbnail_loc v) (vl_title v) (vl_description v)
    (vl_content_loc v) (vl_player_loc v)
    (boolToYESNO (vl_family_friendly v))
    (boolToYESNO (vl_live v))
    (boolToYESNO (vl_requires_subscription v))
    (match vl_tag v with
     | None => []
     | Some (TagOne t) => [t]
     | Some (TagArr ts) => ts
     end)
    (match vl_rating v with
     | None => None
     | Some (RatingStr s) => Some (parse_float s)
     | Some (RatingNum f) => Some f
     end)
    (match vl_view_count v with
     | None => None
     | Some (ViewCountNum f) => Some (number_to_string f)
     | Some (ViewCountStr s) => Some s
     end).

(** Lines 260-295: the write to [smiLoose.video] and the list it yields. *)
Definition normalize_videos : Norm (list IVideoItem) :=
  o <- nget ;;
  match l_video o with
  | Some (VideoOne v) =>
      nmodify (set_l_video (Some (VideoArr [v]))) ;;;
      nret (map normalize_video [v])
  | Some (VideoArr vs) => nret (map normalize_video vs)
  | None => nret []
  end.

(** Lines 297-308: the last-modified precedence. *)
Definition resolve_lastmod (o : ISitemapItemOptionsLoose) : option (option string) :=
  if truthy_str (l_lastmodfile o) then
    option_map Some (stat_mtime_iso (match l_lastmodfile o with Some f => f | None => EmptyString end))
  else if truthy_str (l_lastmodISO o) then
    option_map Some (date_iso (match l_lastmodISO o with Some f => f | None => EmptyString end))
  else if truthy_str (l_lastmod o) then
    option_map Some (date_iso (match l_lastmod o with Some f => f | None => EmptyString end))
  else Some None.

(** Line 310: [{...smiLoose, ...smi}]; [smi.lastmod] is an own property only
    when one of the three branches assigned it. *)
Definition spread (o : ISitemapItemOptionsLoose) (u : string) (imgs : list ISitemapImg)
    (vids : list IVideoItem) (lks : list ILinkItem) (lm : option string) : SitemapItemOptions :=
  mkSMI u imgs vids lks
    (match lm with Some d => Some d | None => l_lastmod o end)
    (l_lastmodISO o) (l_lastmodfile o) (l_changefreq o) (l_priority o).

(** The body of [normalizeURL], run on [smiLoose]. *)
Definition normalizeBody (hostname : option string) : Norm SitemapItemOptions :=
  o <- nget ;;
  u <- nlift (url_resolve (l_url o) hostname) ;;
  imgs <- normalize_img ;;
  imgs' <- nlift (omap (resolve_img hostname) imgs) ;;
  o1 <- nget ;;
  lks <- nlift (omap (resolve_link hostname)
                  (match l_links o1 with Some l => l | None => [] end)) ;;
  vids <- normalize_videos ;;
  o2 <- nget ;;
  lm <- nlift (resolve_lastmod o2) ;;
  o3 <- nget ;;
  nret (spread o3 u imgs' vids lks lm).

(** [Sitemap.normalizeURL(elem, root, hostname)]: the caller's input after
    the call, and the strict entry ([None] when the call throws).  A string
    is wrapped in a fresh object, so the caller's value is untouched. *)
Definition normalizeURL (elem : LooseInput) (hostname : option string)
    : LooseInput * option SitemapItemOptions :=
  match elem with
  | LStr s => (LStr s, snd (normalizeBody hostname
                             (mkLoose s None None None None None None None None)))
  | LObj o => let (o', r) := normalizeBody hostname o in (LObj o', r)
  end.

End Normalize.

(* ------------------------------------------------------------------ *)
(** ** [Map<string, SitemapItemOptions>]: insertion-ordered, keyed by URL *)

Definition UrlMap := list (string * SitemapItemOptions).

(** [Map.prototype.set]: a present key keeps its position and takes the new
    value; a new key goes last. *)
Fixpoint map_set (k : string) (v : SitemapItemOptions) (m : UrlMap) : UrlMap :=
  match m with
  | [] => [(k, v)]
  | (k', v') :: t => if String.eqb k k' then (k, v) :: t else (k', v') :: map_set k v t
  end.

Fixpoint map_has (k : string) (m : UrlMap) : bool :=
  match m with
  | [] => false
  | (k', _) :: t => String.eqb k k' || map_has k t
  end.

Fixpoint map_get (k : string) (m : UrlMap) : option SitemapItemOptions :=
  match m with
  | [] => None
  | (k', v) :: t => if String.eqb k k' then Some v else map_get k t
  end.

(** [Map.prototype.delete]: the map without [k], and whether [k] was there. *)
Fixpoint map_delete (k : string) (m : UrlMap) : UrlMap * bool :=
  match m with
  | [] => ([], false)
  | (k', v) :: t =>
      if String.eqb k k' then (t, true)
      else let (t', b) := map_delete k t in ((k', v) :: t', b)
  end.

Definition map_size (m : UrlMap) : nat := length m.

(** The keys of a [Map] are distinct. *)
Definition map_wf (m : UrlMap) : Prop := NoDup (map fst m).

(* ------------------------------------------------------------------ *)
(** ** The xmlbuilder document behind [Sitemap.root] *)

(** [create('urlset', {encoding: 'UTF-8'})]: the document's nodes before
    the root (processing instructions), the root's attributes and its
    children, each child held as the XML text it is written as. *)
Record XMLDoc := mkDoc {
  doc_instructions : list (string * string);
  root_attribs : list (string * string);
  root_children : list string
}.

Definition dq : string := String (ascii_of_nat 34) EmptyString.
Definition quote (s : string) : string := dq ++ s ++ dq.
Definition newline : string := String (ascii_of_nat 10) EmptyString.

Definition xml_decl : string :=
  "<?xml version=" ++ quote "1.0" ++ " encoding=" ++ quote "UTF-8" ++ "?>".

Definition create_urlset : XMLDoc := mkDoc [] [] [].

(** [element.attribute(k, v)] / [att]: attributes are keyed by name. *)
Fixpoint set_attrib (k v : string) (l : list (string * string)) : list (string * string) :=
  match l with
  | [] => [(k, v)]
  | (k', v') :: t => if String.eqb k k' then (k, v) :: t else (k', v') :: set_attrib k v t
  end.

Definition att (k v : string) (d : XMLDoc) : XMLDoc :=
  mkDoc (doc_instructions d) (set_attrib k v (root_attribs d)) (root_children d).

Definition clear_children (d : XMLDoc) : XMLDoc :=
  mkDoc (doc_instructions d) (root_attribs d) [].

Definition append_child (c : string) (d : XMLDoc) : XMLDoc :=
  mkDoc (doc_instructions d) (root_attribs d) (root_children d ++ [c]).

(** [root.instructionBefore(target, value)]: splices a new instruction into
    the document's children just before the root element. *)
Definition instructionBefore (target value : string) (d : XMLDoc) : XMLDoc :=
  mkDoc (doc_instructions d ++ [(target, value)]) (root_attribs d) (root_children d).

(** The writer's attribute escaping. *)
Fixpoint att_escape (s : string) : string :=
  match s with
  | EmptyString => EmptyString
  | String c t =>
      let n := nat_of_ascii c in
      (if (n =? 38)%nat then "&amp;"
       else if (n =? 60)%nat then "&lt;"
       else if (n =? 34)%nat then "&quot;"
       else if (n =? 9)%nat then "&#x9;"
       else if (n =? 10)%nat then "&#xA;"
       else if (n =? 13)%nat then "&#xD;"
       else String c EmptyString) ++ att_escape t
  end.

(** [root.end(opts)]: the whole document as text.  With [pretty] each node
    at the top level ends its line (the children's own layout is the text
    [SitemapItem] produced). *)
Definition xml_end (pretty : bool) (d : XMLDoc) : string :=
  let sep := if pretty then newline else EmptyString in
  xml_decl ++ sep ++
  String.concat EmptyString
    (map (fun p => "<?" ++ fst p ++ " " ++ snd p ++ "?>" ++ sep) (doc_instructions d)) ++
  "<urlset" ++
  String.concat EmptyString (map (fun a => " " ++ fst a ++ "=" ++ quote (att_escape (snd a)))
                        (root_attribs d)) ++
  (match root_children d with
   | [] => "/>"
   | cs => ">" ++ sep ++ String.concat EmptyString (map (fun c => c ++ sep) cs) ++ "</urlset>"
   end).

(* ------------------------------------------------------------------ *)
(** ** [class Sitemap] *)

Record Sitemap := mkSitemap {
  limit : Z;
  xmlNs : string;
  cacheSetTimestamp : Z;
  urls : UrlMap;
  cacheTime : Z;
  cache : string;
  root : XMLDoc;
  hostname : option string;
  xslUrl : option string
}.

Definition set_urls (m : UrlMap) (s : Sitemap) : Sitemap :=
  mkSitemap (limit s) (xmlNs s) (cacheSetTimestamp s) m (cacheTime s) (cache s)
    (root s) (hostname s) (xslUrl s).

Definition set_root (r : XMLDoc) (s : Sitemap) : Sitemap :=
  mkSitemap (limit s) (xmlNs s) (cacheSetTimestamp s) (urls s) (cacheTime s) (cache s)
    r (hostname s) (xslUrl s).

Definition set_cache_fields (c : string) (ts : Z) (s : Sitemap) : Sitemap :=
  mkSitemap (limit s) (xmlNs s) ts (urls s) (cacheTime s) c (root s) (hostname s) (xslUrl s).

Record ISitemapOptions := mkSitemapOptions {
  o_urls : list LooseInput;
  o_hostname : option string;
  o_cacheTime : option Z;
  o_xslUrl : option string;
  o_xmlNs : option string;
  o_level : option ErrorLevel
}.

(** [s.split(c)]. *)
Fixpoint split_on (c : ascii) (s : string) : list string :=
  match s with
  | EmptyString => [EmptyString]
  | String d t =>
      if Ascii.eqb c d then EmptyString :: split_on c t
      else match split_on c t with
           | w :: ws => String d w :: ws
           | [] => [String d EmptyString]
           end
  end.

Definition is_quote (c : ascii) : bool :=
  (nat_of_ascii c =? 34)%nat || (nat_of_ascii c =? 39)%nat.

Fixpoint drop_last_quote (s : string) : string :=
  match s with
  | EmptyString => EmptyString
  | String c EmptyString => if is_quote c then EmptyString else String c EmptyString
  | String c t => String c (drop_last_quote t)
  end.

(** [v.replace(/^['"]|['"]$/g, '')]. *)
Definition strip_quotes (v : string) : string :=
  match v with
  | String c t => if is_quote c then drop_last_quote t else drop_last_quote v
  | EmptyString => EmptyString
  end.

(** Lines 124-128: [const [k, v] = attr.split('=')]; [v.replace] throws
    when there is no [=]. *)
Definition ns_attrib (attr : string) : option (string * string) :=
  match split_on "=" attr with
  | k :: v :: _ => Some (k, strip_quotes v)
  | _ => None
  end.

Section SitemapClass.
Context {RT : Runtime}.

(** [Sitemap.normalizeURLs]. *)
Definition normalizeURLs (us : list LooseInput) (h : option string) : option UrlMap :=
  fold_left (fun acc elem =>
               match acc, snd (normalizeURL elem h) with
               | Some m, Some smio => Some (map_set (url smio) smio m)
               | _, _ => None
               end) us (Some []).

(** [new Sitemap(opts)]; [None] when the constructor throws. *)
Definition newSitemap (opts : ISitemapOptions) : option Sitemap :=
  let r0 := create_urlset in
  let ns := match o_xmlNs opts with Some x => if truthy_str (Some x) then x else EmptyString
                                  | None => EmptyString end in
  let r1 := if String.eqb ns EmptyString then Some r0
            else fold_left (fun acc attr =>
                              match acc, ns_attrib attr with
                              | Some r, Some (k, v) => Some (att k v r)
                              | _, _ => None
                              end) (split_on " " ns) (Some r0) in
  match r1 with
  | None => None
  | Some r =>
      match normalizeURLs (o_urls opts) (o_hostname opts) with
      | None => None
      | Some m =>
          let level := match o_level opts with Some l => l | None => WARN end in
          if forallb (fun kv => validateSMIOptions (snd kv) (Some level)) m then
            Some (mkSitemap 5000 ns 0 m
                    (match o_cacheTime opts with Some t => t | None => 0 end)
                    EmptyString r (o_hostname opts) (o_xslUrl opts))
          else None
      end
  end.

Definition clearCache (s : Sitemap) : Sitemap :=
  set_cache_fields EmptyString (cacheSetTimestamp s) s.

(** [isCacheValid()] at time [now] ([Date.now()]). *)
Definition isCacheValid (s : Sitemap) (now : Z) : bool :=
  negb (cacheTime s =? 0)%Z && negb (String.eqb (cache s) EmptyString) &&
  (now <=? cacheSetTimestamp s + cacheTime s)%Z.

Definition setCache (newCache : string) (now : Z) (s : Sitemap) : Sitemap * string :=
  (set_cache_fields newCache now s, newCache).

Definition _normalizeURL (s : Sitemap) (u : LooseInput) :=
  normalizeURL u (hostname s).

(** [add(url, level)]: the caller's input after the call, and the new
    sitemap with the returned size ([None] when it throws). *)
Definition add (s : Sitemap) (u : LooseInput) (level : option ErrorLevel)
    : LooseInput * option (Sitemap * nat) :=
  let (u', r) := _normalizeURL s u in
  match r with
  | None => (u', None)
  | Some smi =>
      if validateSMIOptions smi level then
        let m := map_set (url smi) smi (urls s) in (u', Some (set_urls m s, map_size m))
      else (u', None)
  end.

Definition contains (s : Sitemap) (u : LooseInput) : LooseInput * option bool :=
  let (u', r) := _normalizeURL s u in
  (u', option_map (fun smi => map_has (url smi) (urls s)) r).

Definition del (s : Sitemap) (u : LooseInput) : LooseInput * option (Sitemap * bool) :=
  let (u', r) := _normalizeURL s u in
  (u', option_map (fun smi => let (m, b) := map_delete (url smi) (urls s) in
                              (set_urls m s, b)) r).

Definition default_namespaces : list (string * string) :=
  [("xmlns", "http://www.sitemaps.org/schemas/sitemap/0.9");
   ("xmlns:news", "http://www.google.com/schemas/sitemap-news/0.9");
   ("xmlns:xhtml", "http://www.w3.org/1999/xhtml");
   ("xmlns:mobile", "http://www.google.com/schemas/sitemap-mobile/1.0");
   ("xmlns:image", "http://www.google.com/schemas/sitemap-image/1.1");
   ("xmlns:video", "http://www.google.com/schemas/sitemap-video/1.1")].

(** Lines 337-351: the tree edits [toString] makes before it looks at the
    cache. *)
Definition prepare_root (s : Sitemap) : XMLDoc :=
  let r0 := clear_children (root s) in
  let r1 := if String.eqb (xmlNs s) EmptyString
            then fold_left (fun r a => att (fst a) (snd a) r) default_namespaces r0
            else r0 in
  if truthy_str (xslUrl s)
  then instructionBefore "xml-stylesheet"
         ("type=" ++ quote "text/xsl" ++ " href=" ++
          quote (match xslUrl s with Some x => x | None => EmptyString end)) r1
  else r1.

(** [toString(pretty)] called at time [now]. *)
Definition toString (s : Sitemap) (now : Z) (pretty : bool) : Sitemap * string :=
  let s1 := set_root (prepare_root s) s in
  if isCacheValid s1 now then (s1, cache s1)
  else
    let r := fold_left (fun r kv => append_child (buildXML (snd kv)) r) (urls s1) (root s1) in
    setCache (xml_end pretty r) now (set_root r s1).

Definition toXML (s : Sitemap) (now : Z) (pretty : bool) : Sitemap * string :=
  toString s now pretty.

End SitemapClass.

(* ------------------------------------------------------------------ *)
(** ** [class SitemapStream] *)

(** Line 25. *)
Definition preamble : string :=
  xml_decl ++ "<urlset xmlns=" ++ quote "http://www.sitemaps.org/schemas/sitemap/0.9" ++
  " xmlns:news=" ++ quote "http://www.google.com/schemas/sitemap-news/0.9" ++
  " xmlns:xhtml=" ++ quote "http://www.w3.org/1999/xhtml" ++
  " xmlns:mobile=" ++ quote "http://www.google.com/schemas/sitemap-mobile/1.0" ++
  " xmlns:image=" ++ quote "http://www.google.com/schemas/sitemap-image/1.1" ++
  " xmlns:video=" ++ quote "http://www.google.com/schemas/sitemap-video/1.1" ++ ">".

(** Line 26. *)
Definition closetag : string := "</urlset>".

Record SitemapStream := mkStream {
  hasHeadOutput : bool;
  st_hostname : option string;
  st_level : ErrorLevel
}.

Definition newSitemapStream (h : option string) (level : option ErrorLevel) : SitemapStream :=
  mkStream false h (match level with Some l => l | None => WARN end).

Section Stream.
Context {RT : Runtime}.

(** [_transform(item)]: the state after the call, the chunks it pushed, and
    whether it got to [callback()] (a throw from the normaliser or from
    [justItem] ends the call after the preamble was pushed). *)
Definition _transform (st : SitemapStream) (item : LooseInput)
    : SitemapStream * list string * bool :=
  let '(st1, pre) :=
    if hasHeadOutput st then (st, [])
    else (mkStream true (st_hostname st) (st_level st), [preamble]) in
  match snd (normalizeURL item (st_hostname st)) with
  | None => (st1, pre, false)
  | Some smi =>
      match justItem smi (st_level st) with
      | Some frag => (st1, (pre ++ [frag])%list, true)
      | None => (st1, pre, false)
      end
  end.

Definition _flush (st : SitemapStream) : list string := [closetag].

(** Writing [items] one after the other: the chunks pushed so far, and the
    final state when every write went through. *)
Fixpoint write_all (st : SitemapStream) (items : list LooseInput)
    : list string * option SitemapStream :=
  match items with
  | [] => ([], Some st)
  | it :: rest =>
      match _transform st it with
      | (st1, out, true) =>
          let (out', r) := write_all st1 rest in ((out ++ out')%list, r)
      | (st1, out, false) => (out, None)
      end
  end.

(** Writing [items] and then ending the stream: everything the stream
    emitted, and whether it finished. *)
Definition run_stream (st : SitemapStream) (items : list LooseInput) : list string * bool :=
  match write_all st items with
  | (out, Some st') => ((out ++ _flush st')%list, true)
  | (out, None) => (out, false)
  end.

End Stream.

(* ------------------------------------------------------------------ *)
(** ** A concrete runtime, used to evaluate the code at given inputs *)

(** A resolver that keeps absolute URLs and appends relative ones to an
    absolute base. *)
Definition model_resolve (u : string) (b : option string) : option string :=
  if is_absolute u then Some u
  else match b with
       | Some b => if is_absolute b then Some (b ++ u) else None
       | None => None
       end.

Definition model_item (smi : SitemapItemOptions) : string :=
  "<url><loc>" ++ url smi ++ "</loc></url>".

(** The runtime the witnesses below are evaluated with. *)
#[export] Instance ModelRuntime : Runtime.
Proof.
  refine {|
    url_resolve := model_resolve;
    url_resolve_absolute := _;
    stat_mtime_iso := fun _ => Some "2019-07-01T00:00:00.000Z";
    date_iso := fun s => Some s;
    parse_float := fun _ => 0%float;
    number_to_string := fun _ => "0";
    validateSMIOptions := fun _ _ => true;
    justItem := fun smi _ => Some (model_item smi);
    buildXML := model_item
  |}.
  assert (Hs : forall t u, scheme_rest t = true -> scheme_rest (t ++ u) = true).
  { induction t as [|c t IH]; intros u H; simpl in *; [discriminate|].
    destruct (nat_of_ascii c =? 58)%nat; [reflexivity|].
    destruct (is_scheme_char c); [apply IH; exact H|discriminate]. }
  unfold model_resolve. intros u b r H.
  destruct (is_absolute u) eqn:Hu; [injection H as <-; exact Hu|].
  destruct b as [b|]; [|discriminate].
  destruct (is_absolute b) eqn:Hb; [|discriminate].
  injection H as <-. destruct b as [|c t]; simpl in *; [discriminate|].
  apply andb_prop in Hb as [H1 H2]. rewrite H1. simpl. apply Hs. exact H2.
Defined.

(* ------------------------------------------------------------------ *)
(** ** Derived views of the code, used to state the results *)

(** The object [normalizeURL] works on: a string is wrapped in [{url}]. *)
Definition loose_view (x : LooseInput) : ISitemapItemOptionsLoose :=
  match x with
  | LStr s => mkLoose s None None None None None None None None
  | LObj o => o
  end.

(** The caller's object after lines 236-246. *)
Definition img_written (o : ISitemapItemOptionsLoose) : ISitemapItemOptionsLoose :=
  match l_img o with
  | Some (ImgArr _) => o
  | Some f => if img_truthy f then set_l_img (Some (ImgArr (img_as_array f))) o else o
  | None => o
  end.

(** The image list of lines 235-246, before the URLs are resolved. *)
Definition img_list (o : ISitemapItemOptionsLoose) : list ISitemapImg :=
  match l_img o with
  | Some f => if img_truthy f then map img_elem_obj (img_as_array f) else []
  | None => []
  end.

(** The caller's object after lines 260-264. *)
Definition video_written (o : ISitemapItemOptionsLoose) : ISitemapItemOptionsLoose :=
  match l_video o with
  | Some (VideoOne v) => set_l_video (Some (VideoArr [v])) o
  | _ => o
  end.

(** The loose videos the code maps over. *)
Definition video_list (o : ISitemapItemOptionsLoose) : list IVideoItemLoose :=
  match l_video o with
  | Some (VideoOne v) => [v]
  | Some (VideoArr vs) => vs
  | None => []
  end.

Definition links_list (o : ISitemapItemOptionsLoose) : list ILinkItem :=
  match l_links o with Some l => l | None => [] end.

(** A single image or video turned into a one-element array; arrays,
    falsy values and absent fields as they are. *)
Definition listify_img (f : option ImgField) : option ImgField :=
  match f with
  | Some (ImgStr s) => if String.eqb s EmptyString then Some (ImgStr s)
                       else Some (ImgArr [ImgElemObj (mkImg s None None None None)])
  | Some (ImgObj i) => Some (ImgArr [ImgElemObj i])
  | f => f
  end.

Definition listify_video (f : option VideoField) : option VideoField :=
  match f with
  | Some (VideoOne v) => Some (VideoArr [v])
  | f => f
  end.

(** The fields other than [img] and [video] are never written. *)
Definition same_other_fields (o o' : ISitemapItemOptionsLoose) : Prop :=
  l_url o' = l_url o /\ l_links o' = l_links o /\ l_lastmod o' = l_lastmod o /\
  l_lastmodISO o' = l_lastmodISO o /\ l_lastmodfile o' = l_lastmodfile o /\
  l_changefreq o' = l_changefreq o /\ l_priority o' = l_priority o.

Section Rebuild.
Context {RT : Runtime}.

(** The tree [toString] serialises when it does not answer from the cache. *)
Definition rebuild (s : Sitemap) : XMLDoc :=
  fold_left (fun r kv => append_child (buildXML (snd kv)) r) (urls s) (prepare_root s).

End Rebuild.

(* ------------------------------------------------------------------ *)
(** ** Serialisation and the cache *)

Fixpoint attr_get (k : string) (l : list (string * string)) : option string :=
  match l with
  | [] => None
  | (k', v) :: t => if String.eqb k k' then Some v else attr_get k t
  end.

(** [xml-stylesheet] instruction [toString] adds for [xslUrl] [x]. *)
Definition stylesheet_pi (x : string) : string :=
  "<?xml-stylesheet type=" ++ quote "text/xsl" ++ " href=" ++ quote x ++ "?>".

(** The root start tag with the default namespaces and no children. *)
Definition empty_urlset : string :=
  "<urlset" ++ String.concat EmptyString
    (map (fun a => " " ++ fst a ++ "=" ++ quote (att_escape (snd a))) default_namespaces) ++ "/>".

Definition xsl_opts : ISitemapOptions :=
  mkSitemapOptions [] None (Some 1000%Z) (Some "https://example.com/style.xsl") None None.

Definition set_defaults (l : list (string * string)) : list (string * string) :=
  fold_left (fun r (a : string * string) => set_attrib (fst a) (snd a) r) default_namespaces l.

Section Emits.
Context {RT : Runtime}.

(** An item the stream turns into the fragment [frag]. *)
Definition emits (h : option string) (lvl : ErrorLevel) (it : LooseInput) (frag : string) : Prop :=
  exists smi, snd (normalizeURL it h) = Some smi /\ justItem smi lvl = Some frag.

End Emits.

(* ------------------------------------------------------------------ *)
(** ** Concrete inputs *)

(** The entry [{url: '/page', img: '/a.png', links: [{lang: 'fr', url:
    '/fr/page'}], video: {thumbnail_loc: '/thumb.jpg', ...}}]: every URL
    relative. *)
Definition c5_video : IVideoItemLoose :=
  mkVideoLoose "/thumb.jpg" "Title" "Description" None None None None None None None None.

Definition c5_input : LooseInput :=
  LObj (mkLoose "/page" (Some (ImgStr "/a.png")) (Some (VideoOne c5_video))
          (Some [mkLink "fr" "/fr/page"]) None None None None None).

Definition c8_object : ISitemapItemOptionsLoose :=
  mkLoose "https://example.com/" (Some (ImgStr "https://example.com/a.png"))
    None None None None None None None.

(* ------------------------------------------------------------------ *)
(** ** The index orchestrator *)

(** Modelled from the spec: the errors of [createSitemapIndex] (module
    [./sitemap-index], not among the sources; its test is
    [src/unnamed/part_000]): an unconfigured target folder
    ([UndefinedTargetFolder], as the test expects), entries of a chunk that
    do not normalise, and a failed write. *)
Inductive IndexError :=
| UndefinedTargetFolder
| InvalidChunk (chunk : nat)
| WriteFailed (path : string).

(** Modelled from the spec: the three kinds of error section 7 tells apart. *)
Inductive ErrorKind := ConfigurationPrecondition | BadInputData | CollaboratorFailure.

Definition error_kind (e : IndexError) : ErrorKind :=
  match e with
  | UndefinedTargetFolder => ConfigurationPrecondition
  | InvalidChunk _ => BadInputData
  | WriteFailed _ => CollaboratorFailure
  end.

(** Modelled from the spec: the options of [createSitemapIndex]. *)
Record ISitemapIndexOptions := mkIndexOptions {
  si_urls : list LooseInput;
  si_targetFolder : option string;
  si_hostname : option string;
  si_cacheTime : option Z;
  si_sitemapName : string;
  si_sitemapSize : option nat;
  si_gzip : bool
}.

(** Modelled from the spec: the file-system and compression collaborators. *)
Record FileSystem := mkFileSystem {
  fs_dir_exists : string -> bool;
  fs_write : string -> string -> bool;
  fs_gzip : string -> string
}.

(** Modelled from the spec: consecutive chunks of at most [n] entries. *)
Fixpoint chunks_fuel {A} (fuel n : nat) (l : list A) : list (list A) :=
  match fuel, l with
  | 0, _ | _, [] => []
  | S f, _ => firstn n l :: chunks_fuel f n (skipn n l)
  end.

Definition chunks {A} (n : nat) (l : list A) : list (list A) :=
  chunks_fuel (length l) (Nat.max 1 n) l.

Definition nat_to_string (n : nat) : string := NilZero.string_of_uint (Nat.to_uint n).

(** Modelled from the spec: the index document listing the chunk files. *)
Definition index_document (locs : list string) : string :=
  xml_decl ++ "<sitemapindex xmlns=" ++ quote "http://www.sitemaps.org/schemas/sitemap/0.9" ++ ">" ++
  String.concat EmptyString (map (fun l => "<sitemap><loc>" ++ l ++ "</loc></sitemap>") locs) ++
  "</sitemapindex>".

Section IndexModel.
Context {RT : Runtime}.

(** Modelled from the spec: writing chunk [i] and those after it; the files
    written, their names, and the error that stopped the run. *)
Fixpoint write_chunks (fs : FileSystem) (o : ISitemapIndexOptions) (folder : string)
    (i : nat) (cs : list (list LooseInput))
    : list (string * string) * list string * option IndexError :=
  match cs with
  | [] => ([], [], None)
  | c :: rest =>
      match newSitemap (mkSitemapOptions c (si_hostname o) (si_cacheTime o) None None None) with
      | None => ([], [], Some (InvalidChunk i))
      | Some s =>
          let xml := snd (toString s 0 false) in
          let name := si_sitemapName o ++ "-" ++ nat_to_string i ++
                      (if si_gzip o then ".xml.gz" else ".xml") in
          let path := folder ++ "/" ++ name in
          let data := if si_gzip o then fs_gzip fs xml else xml in
          if fs_write fs path data then
            match write_chunks fs o folder (S i) rest with
            | (ws, ns, e) => ((path, data) :: ws, name :: ns, e)
            end
          else ([], [], Some (WriteFailed path))
      end
  end.

(** Modelled from the spec: [createSitemapIndex(opts)]: the files written,
    in order, and the error the call ends with ([None] on success).  The
    target folder is checked before any chunk is built. *)
Definition createSitemapIndex (fs : FileSystem) (o : ISitemapIndexOptions)
    : list (string * string) * option IndexError :=
  match si_targetFolder o with
  | None => ([], Some UndefinedTargetFolder)
  | Some folder =>
      if negb (fs_dir_exists fs folder) then ([], Some UndefinedTargetFolder)
      else
        let size := match si_sitemapSize o with Some n => n | None => 50000 end in
        match write_chunks fs o folder 0 (chunks size (si_urls o)) with
        | (ws, _, Some e) => (ws, Some e)
        | (ws, names, None) =>
            let base := match si_hostname o with Some h => h | None => EmptyString end in
            let ipath := folder ++ "/" ++ si_sitemapName o ++ "-index.xml" in
            let idx := index_document (map (fun n => base ++ "/" ++ n) names) in
            if fs_write fs ipath idx then ((ws ++ [(ipath, idx)])%list, None)
            else (ws, Some (WriteFailed ipath))
        end
  end.

End IndexModel.

(* ------------------------------------------------------------------ *)
(** ** Views used to state what [normalizeURLs] builds *)

(** The last entry of [l] whose URL is [k]. *)
Fixpoint last_with (k : string) (l : list SitemapItemOptions) : option SitemapItemOptions :=
  match l with
  | [] => None
  | x :: t =>
      match last_with k t with
      | Some y => Some y
      | None => if String.eqb k (url x) then Some x else None
      end
  end.

(** The distinct strings of [l], in the order of their first occurrence. *)
Definition dedup_first (l : list string) : list string :=
  fold_left (fun ks k => if existsb (String.eqb k) ks then ks else (ks ++ [k])%list) l [].

(* ------------------------------------------------------------------ *)
(** ** Inputs at which the results are instantiated *)

Definition get_some {A} (d : A) (o : option A) : A :=
  match o with Some a => a | None => d end.

Definition w_base : option string := Some "https://example.com".

(** A sitemap with no entries, the base [https://example.com] and no cache. *)
Definition w_site : Sitemap :=
  mkSitemap 5000 EmptyString 0 [] 0 EmptyString create_urlset w_base None.

Definition w_smi0 : SitemapItemOptions := mkSMI EmptyString [] [] [] None None None None None.

(** The entry [/a], given as a string and as an object with a [changefreq]. *)
Definition w_x1 : LooseInput := LStr "/a".

Definition w_x2 : LooseInput :=
  LObj (mkLoose "/a" None None None None None None (Some "daily") None).

Definition w_smi1 : SitemapItemOptions :=
  get_some w_smi0 (snd (normalizeURL (RT := ModelRuntime) w_x1 w_base)).

Definition w_smi2 : SitemapItemOptions :=
  get_some w_smi0 (snd (normalizeURL (RT := ModelRuntime) w_x2 w_base)).

(** [w_site] after [add(w_x1)], then after [add(w_x2)], and [w_s1] after
    [del(w_x1)]. *)
Definition w_s1 : Sitemap :=
  get_some w_site (option_map fst (snd (add (RT := ModelRuntime) w_site w_x1 None))).

Definition w_s2 : Sitemap :=
  get_some w_site (option_map fst (snd (add (RT := ModelRuntime) w_s1 w_x2 None))).

Definition w_s3 : Sitemap :=
  get_some w_site (option_map fst (snd (del (RT := ModelRuntime) w_s1 w_x1))).

(** An entry with a [lastmodfile], a [lastmodISO] and a [lastmod]. *)
Definition w_x4 : LooseInput :=
  LObj (mkLoose "/b" None None None (Some "2020-01-01") (Some "2019-01-01") (Some "/tmp/f")
          None None).

Definition w_smi4 : SitemapItemOptions :=
  get_some w_smi0 (snd (normalizeURL (RT := ModelRuntime) w_x4 w_base)).

Definition w_x5 : LooseInput := fst (normalizeURL (RT := ModelRuntime) c5_input w_base).

Definition w_smi5 : SitemapItemOptions :=
  get_some w_smi0 (snd (normalizeURL (RT := ModelRuntime) c5_input w_base)).

Definition w_s9 : Sitemap := get_some w_site (newSitemap (RT := ModelRuntime) xsl_opts).

(** A file system on which no folder exists. *)
Definition w_fs : FileSystem := mkFileSystem (fun _ => false) (fun _ _ => true) (fun d => d).

Definition w_index_opts : ISitemapIndexOptions :=
  mkIndexOptions [w_x1] (Some "/tmp/out") w_base None "sitemap" None false.

(** An absolute entry, a relative one (which fails without a base), and
    the strict entry of the first. *)
Definition w_abs_x : LooseInput := LStr "https://example.com/a".

Definition w_bad_x : LooseInput := LStr "/b".

Definition w_abs_smi : SitemapItemOptions :=
  get_some w_smi0 (snd (normalizeURL (RT := ModelRuntime) w_abs_x None)).

(** The strict entry of [w_bad_x] against the base [https://example.com]. *)
Definition w_bad_smi : SitemapItemOptions :=
  get_some w_smi0 (snd (normalizeURL (RT := ModelRuntime) w_bad_x w_base)).

(** [c8_object] after a normalisation, and its strict entry. *)
Definition w_c8_after : LooseInput := fst (normalizeURL (RT := ModelRuntime) (LObj c8_object) None).

Definition w_c8_smi : SitemapItemOptions :=
  get_some w_smi0 (snd (normalizeURL (RT := ModelRuntime) (LObj c8_object) None)).

(** The map the constructor builds from [w_x1] and [w_x2]. *)
Definition w_map : UrlMap :=
  get_some [] (normalizeURLs (RT := ModelRuntime) [w_x1; w_x2] w_base).

(** [w_site] with a TTL of 1000. *)
Definition w_ttl_site : Sitemap :=
  mkSitemap 5000 EmptyString 0 [] 1000 EmptyString create_urlset w_base None.

(** Options whose [xmlNs] item has no [=]. *)
Definition w_bad_ns_opts : ISitemapOptions :=
  mkSitemapOptions [] None None None (Some "xmlns") None.

(* ------------------------------------------------------------------ *)
(** ** Facts about the code, and the claims *)

Section NormalizeFacts.
Context {RT : Runtime}.

Lemma normalize_img_eq : forall o, normalize_img o = (img_written o, Some (img_list o)).
Proof.
  intros o. unfold normalize_img, img_written, img_list, nbind, nget, nret, nmodify.
  destruct (l_img o) as [f|]; [|reflexivity].
  destruct f as [s|i|l]; simpl; try reflexivity.
  destruct (String.eqb s EmptyString); reflexivity.
Qed.

Lemma normalize_videos_eq :
  forall o, normalize_videos o = (video_written o, Some (map normalize_video (video_list o))).
Proof.
  intros o. unfold normalize_videos, video_written, video_list, nbind, nget, nret, nmodify.
  destruct (l_video o) as [[v|vs]|]; reflexivity.
Qed.

(** [normalizeBody] in closed form: the order of its writes and throws. *)
Lemma normalizeBody_eq : forall h o,
  normalizeBody h o =
  match url_resolve (l_url o) h with
  | None => (o, None)
  | Some u =>
      let o1 := img_written o in
      match omap (resolve_img h) (img_list o) with
      | None => (o1, None)
      | Some imgs =>
          match omap (resolve_link h) (links_list o1) with
          | None => (o1, None)
          | Some lks =>
              let o2 := video_written o1 in
              match resolve_lastmod o2 with
              | None => (o2, None)
              | Some lm => (o2, Some (spread o2 u imgs
                                         (map normalize_video (video_list o1)) lks lm))
              end
          end
      end
  end.
Proof.
  intros h o. unfold normalizeBody.
  unfold nbind at 1, nget at 1. unfold nbind at 1, nlift at 1.
  destruct (url_resolve (l_url o) h) as [u|]; [|reflexivity].
  unfold nbind at 1. rewrite normalize_img_eq.
  unfold nbind at 1, nlift at 1.
  destruct (omap (resolve_img h) (img_list o)) as [imgs|]; [|reflexivity].
  unfold nbind at 1, nget at 1. unfold nbind at 1, nlift at 1. unfold links_list.
  destruct (omap (resolve_link h) _) as [lks|]; [|reflexivity].
  unfold nbind at 1. rewrite normalize_videos_eq.
  unfold nbind at 1, nget at 1. unfold nbind at 1, nlift at 1.
  destruct (resolve_lastmod _) as [lm|]; [|reflexivity].
  reflexivity.
Qed.

End NormalizeFacts.

Ltac loose_cases o :=
  destruct o as [? [[?s|?i|?l]|] [[?v|?vs]|] ? ? ? ? ? ?];
  unfold img_written, img_list, video_written, video_list, img_truthy, set_l_img,
    set_l_video; simpl;
  repeat (match goal with
          | E : String.eqb ?s EmptyString = _ |- context [String.eqb ?s EmptyString] =>
              rewrite E; simpl
          | |- context [String.eqb ?s EmptyString] =>
              let E := fresh "E" in destruct (String.eqb s EmptyString) eqn:E; simpl
          end);
  try reflexivity.

Section WriteFacts.

Lemma img_written_idem : forall o, img_written (img_written o) = img_written o.
Proof. intros o; loose_cases o. Qed.

Lemma img_list_img_written : forall o, img_list (img_written o) = img_list o.
Proof. intros o; loose_cases o. Qed.

Lemma img_list_video_written : forall o, img_list (video_written o) = img_list o.
Proof. intros o; loose_cases o. Qed.

Lemma img_written_after : forall o,
  img_written (video_written (img_written o)) = video_written (img_written o).
Proof. intros o; loose_cases o. Qed.

Lemma video_written_idem : forall o, video_written (video_written o) = video_written o.
Proof. intros o; loose_cases o. Qed.

Lemma video_list_video_written : forall o, video_list (video_written o) = video_list o.
Proof. intros o; loose_cases o. Qed.

Lemma video_list_img_written : forall o, video_list (img_written o) = video_list o.
Proof. intros o; loose_cases o. Qed.

Lemma img_written_other : forall o, same_other_fields o (img_written o).
Proof. intros o; unfold same_other_fields; loose_cases o; repeat split. Qed.

Lemma video_written_other : forall o, same_other_fields o (video_written o).
Proof. intros o; unfold same_other_fields; loose_cases o; repeat split. Qed.

Lemma same_other_fields_trans : forall o1 o2 o3,
  same_other_fields o1 o2 -> same_other_fields o2 o3 -> same_other_fields o1 o3.
Proof.
  unfold same_other_fields; intros o1 o2 o3 H1 H2; intuition congruence.
Qed.

Lemma links_list_other : forall o o', same_other_fields o o' -> links_list o' = links_list o.
Proof. unfold same_other_fields, links_list; intros o o' (_ & H & _); rewrite H; reflexivity. Qed.

Lemma resolve_lastmod_other {RT : Runtime} : forall o o',
  same_other_fields o o' -> resolve_lastmod o' = resolve_lastmod o.
Proof.
  unfold same_other_fields, resolve_lastmod; intros o o' (_ & _ & H1 & H2 & H3 & _).
  rewrite H1, H2, H3; reflexivity.
Qed.

End WriteFacts.

Section NormalizeIdem.
Context {RT : Runtime}.

Lemma normalizeBody_success : forall h o o' r,
  normalizeBody h o = (o', Some r) ->
  o' = video_written (img_written o) /\
  exists u imgs lks lm,
    url_resolve (l_url o) h = Some u /\
    omap (resolve_img h) (img_list o) = Some imgs /\
    omap (resolve_link h) (links_list o) = Some lks /\
    resolve_lastmod o = Some lm /\
    r = spread o' u imgs (map normalize_video (video_list o)) lks lm.
Proof.
  intros h o o' r H. rewrite normalizeBody_eq in H. cbv zeta in H.
  destruct (url_resolve (l_url o) h) as [u|] eqn:Hu; [|discriminate].
  destruct (omap (resolve_img h) (img_list o)) as [imgs|] eqn:Hi; [|discriminate].
  rewrite (links_list_other _ _ (img_written_other o)) in H.
  destruct (omap (resolve_link h) (links_list o)) as [lks|] eqn:Hl; [|discriminate].
  rewrite (resolve_lastmod_other o _
             (same_other_fields_trans _ _ _ (img_written_other o)
                (video_written_other (img_written o)))) in H.
  destruct (resolve_lastmod o) as [lm|] eqn:Hm; [|discriminate].
  injection H as <- <-. split; [reflexivity|].
  exists u, imgs, lks, lm. rewrite video_list_img_written. repeat split; assumption.
Qed.

(** Normalising the object a successful normalisation left behind writes
    nothing and gives the same entry. *)
Lemma normalizeBody_idem : forall h o o' r,
  normalizeBody h o = (o', Some r) -> normalizeBody h o' = (o', Some r).
Proof.
  intros h o o' r H.
  destruct (normalizeBody_success _ _ _ _ H) as (-> & u & imgs & lks & lm & Hu & Hi & Hl & Hm & ->).
  pose proof (same_other_fields_trans _ _ _ (img_written_other o)
                (video_written_other (img_written o))) as Hs.
  rewrite normalizeBody_eq. cbv zeta.
  destruct Hs as [Hurl Hs']. rewrite Hurl, Hu.
  rewrite img_written_after, img_list_video_written, img_list_img_written, Hi.
  rewrite (links_list_other o); [|exact (conj Hurl Hs')]. rewrite Hl.
  rewrite video_written_idem.
  rewrite (resolve_lastmod_other o); [|exact (conj Hurl Hs')]. rewrite Hm.
  rewrite ?video_written_idem, ?video_list_video_written, ?video_list_img_written.
  reflexivity.
Qed.

Lemma normalizeURL_idem : forall h x x' r,
  normalizeURL x h = (x', Some r) -> normalizeURL x' h = (x', Some r).
Proof.
  intros h [s|o] x' r H; unfold normalizeURL in *.
  - injection H as <- H. rewrite H. reflexivity.
  - destruct (normalizeBody h o) as [o1 r1] eqn:E. injection H as <- ->.
    rewrite (normalizeBody_idem _ _ _ _ E). reflexivity.
Qed.

(** The resolved URL is the resolver's answer for the input's URL. *)
Lemma normalizeURL_url : forall h x x' r,
  normalizeURL x h = (x', Some r) -> url_resolve (l_url (loose_view x)) h = Some (url r).
Proof.
  intros h x x' r H.
  assert (E : normalizeBody h (loose_view x) = (fst (normalizeBody h (loose_view x)), Some r)).
  { destruct x as [s|o]; unfold normalizeURL, loose_view in *.
    - injection H as _ H. rewrite <- H. destruct (normalizeBody h _); reflexivity.
    - destruct (normalizeBody h o) as [o1 r1]. injection H as _ ->. reflexivity. }
  destruct (normalizeBody_success _ _ _ _ E) as (_ & u & imgs & lks & lm & Hu & _ & _ & _ & Hr).
  rewrite Hr. exact Hu.
Qed.

End NormalizeIdem.

(* ------------------------------------------------------------------ *)
(** ** The URL map *)

Section MapFacts.

Lemma map_has_In : forall k m, map_has k m = true <-> In k (map fst m).
Proof.
  intros k m; induction m as [|[k' v'] t IH]; simpl; [split; [discriminate|tauto]|].
  rewrite orb_true_iff, IH. destruct (String.eqb_spec k k') as [->|Hne].
  - split; [intros _; left; reflexivity|intros _; left; reflexivity].
  - split; [intros [H|H]; [discriminate|right; exact H]|intros [H|H]; [congruence|right; exact H]].
Qed.

Lemma map_get_set_same : forall k v m, map_get k (map_set k v m) = Some v.
Proof.
  intros k v m; induction m as [|[k' v'] t IH]; simpl.
  - rewrite String.eqb_refl. reflexivity.
  - destruct (String.eqb k k') eqn:E; simpl; [rewrite String.eqb_refl; reflexivity|].
    rewrite E. exact IH.
Qed.

Lemma map_has_set_same : forall k v m, map_has k (map_set k v m) = true.
Proof.
  intros k v m; induction m as [|[k' v'] t IH]; simpl.
  - rewrite String.eqb_refl. reflexivity.
  - destruct (String.eqb k k') eqn:E; simpl; [rewrite String.eqb_refl; reflexivity|].
    rewrite IH, orb_true_r. reflexivity.
Qed.

Lemma map_set_keys : forall k v m,
  map fst (map_set k v m) = if map_has k m then map fst m else (map fst m ++ [k])%list.
Proof.
  intros k v m; induction m as [|[k' v'] t IH]; simpl; [reflexivity|].
  destruct (String.eqb_spec k k') as [->|Hne]; simpl; [reflexivity|].
  rewrite IH. destruct (map_has k t); reflexivity.
Qed.

Lemma map_size_set : forall k v m,
  map_size (map_set k v m) = if map_has k m then map_size m else S (map_size m).
Proof.
  intros k v m. unfold map_size. rewrite <- !(length_map fst), map_set_keys.
  destruct (map_has k m); [reflexivity|]. rewrite length_app. simpl. lia.
Qed.

Lemma map_set_wf : forall k v m, map_wf m -> map_wf (map_set k v m).
Proof.
  unfold map_wf. intros k v m H. rewrite map_set_keys.
  destruct (map_has k m) eqn:E; [exact H|].
  apply NoDup_app; [exact H|constructor; [tauto|constructor]|].
  intros x Hx [<-|[]]. apply map_has_In in Hx. congruence.
Qed.

Lemma map_delete_has : forall k m, snd (map_delete k m) = map_has k m.
Proof.
  intros k m; induction m as [|[k' v'] t IH]; simpl; [reflexivity|].
  destruct (String.eqb k k'); [reflexivity|].
  destruct (map_delete k t) as [t' b]; simpl in *. exact IH.
Qed.

Lemma map_delete_keys_incl : forall k m x,
  In x (map fst (fst (map_delete k m))) -> In x (map fst m) /\ x <> k \/ ~ map_wf m.
Proof.
  intros k m x; induction m as [|[k' v'] t IH]; simpl; [tauto|].
  destruct (String.eqb_spec k k') as [->|Hne].
  - intros Hx. destruct (String.eqb_spec x k') as [->|Hxk].
    + right. unfold map_wf. simpl. intros Hnd. inversion Hnd; contradiction.
    + left. split; [right; exact Hx|exact Hxk].
  - destruct (map_delete k t) as [t' b] eqn:E. simpl in *.
    intros [<-|Hx].
    + left. split; [left; reflexivity|intros ->; apply Hne; reflexivity].
    + destruct (IH Hx) as [[H1 H2]|H]; [left; split; [right; exact H1|exact H2]|].
      right. intros Hw. apply H. unfold map_wf in *. simpl in Hw. inversion Hw; assumption.
Qed.

Lemma map_delete_wf : forall k m, map_wf m -> map_wf (fst (map_delete k m)).
Proof.
  unfold map_wf. intros k m; induction m as [|[k' v'] t IH]; simpl; intros H; [constructor|].
  inversion H as [|? ? Hn Ht]; subst.
  destruct (String.eqb k k'); [exact Ht|].
  destruct (map_delete k t) as [t' b] eqn:E. simpl in *. constructor; [|exact (IH Ht)].
  intros Hin. pose proof (map_delete_keys_incl k t k') as Hi. rewrite E in Hi.
  destruct (Hi Hin) as [[H1 _]|H1]; [contradiction|exact (H1 Ht)].
Qed.

Lemma map_delete_gone : forall k m, map_wf m -> map_has k (fst (map_delete k m)) = false.
Proof.
  intros k m Hw. destruct (map_has k (fst (map_delete k m))) eqn:E; [|reflexivity].
  apply map_has_In in E. pose proof (map_delete_keys_incl k m k E) as [[_ H]|H];
  [contradiction H; reflexivity|contradiction].
Qed.

End MapFacts.

(* ------------------------------------------------------------------ *)
(** ** The document: add, contains, del and the cache slot *)

Section Document.
Context {RT : Runtime}.

Lemma add_success : forall s x lv x' s' n,
  add s x lv = (x', Some (s', n)) ->
  exists smi, normalizeURL x (hostname s) = (x', Some smi) /\
    validateSMIOptions smi lv = true /\
    s' = set_urls (map_set (url smi) smi (urls s)) s /\
    n = map_size (map_set (url smi) smi (urls s)).
Proof.
  unfold add, _normalizeURL. intros s x lv x' s' n H.
  destruct (normalizeURL x (hostname s)) as [x1 [smi|]]; [|discriminate].
  destruct (validateSMIOptions smi lv) eqn:V; [|discriminate].
  injection H as <- <- <-. exists smi. repeat split; assumption.
Qed.

Lemma del_success : forall s x x' s' b,
  del s x = (x', Some (s', b)) ->
  exists smi, normalizeURL x (hostname s) = (x', Some smi) /\
    s' = set_urls (fst (map_delete (url smi) (urls s))) s /\
    b = snd (map_delete (url smi) (urls s)).
Proof.
  unfold del, _normalizeURL. intros s x x' s' b H.
  destruct (normalizeURL x (hostname s)) as [x1 [smi|]]; [|discriminate].
  simpl in H. destruct (map_delete (url smi) (urls s)) as [m b0] eqn:E.
  injection H as <- <- <-. exists smi. rewrite E. repeat split; reflexivity.
Qed.

Lemma add_wf : forall s x lv x' s' n,
  map_wf (urls s) -> add s x lv = (x', Some (s', n)) -> map_wf (urls s').
Proof.
  intros s x lv x' s' n Hw H. destruct (add_success _ _ _ _ _ _ H) as (smi & _ & _ & -> & _).
  apply map_set_wf. exact Hw.
Qed.

Lemma del_wf : forall s x x' s' b,
  map_wf (urls s) -> del s x = (x', Some (s', b)) -> map_wf (urls s').
Proof.
  intros s x x' s' b Hw H. destruct (del_success _ _ _ _ _ H) as (smi & _ & -> & _).
  apply map_delete_wf. exact Hw.
Qed.

Lemma normalizeURLs_wf : forall us h m, normalizeURLs us h = Some m -> map_wf m.
Proof.
  unfold normalizeURLs. intros us h.
  assert (G : forall acc m, (forall m0, acc = Some m0 -> map_wf m0) ->
            fold_left (fun acc elem =>
               match acc, snd (normalizeURL elem h) with
               | Some m, Some smio => Some (map_set (url smio) smio m)
               | _, _ => None
               end) us acc = Some m -> map_wf m).
  { induction us as [|e t IH]; simpl; intros acc m Hacc H; [exact (Hacc m H)|].
    refine (IH _ m _ H). intros m0 E.
    destruct acc as [a|]; [|discriminate]. destruct (snd (normalizeURL e h)); [|discriminate].
    injection E as <-. apply map_set_wf. apply Hacc. reflexivity. }
  intros m. apply G. intros m0 E. injection E as <-. constructor.
Qed.

(** Every sitemap the constructor builds has distinct keys. *)
Lemma newSitemap_wf : forall opts s, newSitemap opts = Some s -> map_wf (urls s).
Proof.
  unfold newSitemap. intros opts s H.
  destruct (if String.eqb _ EmptyString then _ else _) as [r|]; [|discriminate].
  destruct (normalizeURLs (o_urls opts) (o_hostname opts)) as [m|] eqn:E; [|discriminate].
  destruct (forallb _ m); [|discriminate]. injection H as <-.
  exact (normalizeURLs_wf _ _ _ E).
Qed.

(** Claim C1: adding two entries that resolve to the same URL keeps one
    entry under that URL. The second add leaves the number of entries (and
    the order of the keys) as the first add left them, and the entry kept
    under the URL is the one from the second add. *)
Theorem add_same_url_replaces :
  forall s x1 x2 lv1 lv2 x1' x2' s1 s2 n1 n2 smi1 smi2,
  snd (normalizeURL x1 (hostname s)) = Some smi1 ->
  snd (normalizeURL x2 (hostname s)) = Some smi2 ->
  url smi1 = url smi2 ->
  add s x1 lv1 = (x1', Some (s1, n1)) ->
  add s1 x2 lv2 = (x2', Some (s2, n2)) ->
  n2 = n1 /\ map fst (urls s2) = map fst (urls s1) /\
  map_get (url smi1) (urls s2) = Some smi2.
Proof.
  intros s x1 x2 lv1 lv2 x1' x2' s1 s2 n1 n2 smi1 smi2 N1 N2 U A1 A2.
  destruct (add_success _ _ _ _ _ _ A1) as (a1 & E1 & _ & -> & ->).
  destruct (add_success _ _ _ _ _ _ A2) as (a2 & E2 & _ & -> & ->).
  simpl in *. rewrite E1 in N1. rewrite E2 in N2. simpl in N1, N2.
  injection N1 as ->. injection N2 as ->. rewrite <- U.
  rewrite map_size_set, map_has_set_same, map_set_keys, map_has_set_same.
  repeat split. apply map_get_set_same.
Qed.

End Document.

Section DocumentClaims.
Context {RT : Runtime}.

(** Claim C6: with distinct keys in the URL map, [contains(X)] answers
    [true] right after a successful [add(X)] and [false] right after a
    successful [del(X)] (both calls get the caller's object as the previous
    call left it); [del(X)] returns what [contains(X)] would have answered
    before it. *)
Theorem contains_after_add_del : forall s x lv,
  map_wf (urls s) ->
  (forall x' s' n, add s x lv = (x', Some (s', n)) -> contains s' x' = (x', Some true)) /\
  (forall x' s' b, del s x = (x', Some (s', b)) ->
     contains s' x' = (x', Some false) /\ snd (contains s x) = Some b).
Proof.
  intros s x lv Hw. split.
  - intros x' s' n H. destruct (add_success _ _ _ _ _ _ H) as (smi & E & _ & -> & _).
    unfold contains, _normalizeURL. simpl.
    rewrite (normalizeURL_idem _ _ _ _ E). simpl. rewrite map_has_set_same. reflexivity.
  - intros x' s' b H. destruct (del_success _ _ _ _ _ H) as (smi & E & -> & ->).
    unfold contains, _normalizeURL. simpl.
    rewrite (normalizeURL_idem _ _ _ _ E), E. simpl.
    rewrite map_delete_gone, map_delete_has by exact Hw. split; reflexivity.
Qed.

(** Claim C7: a successful [add] or [del] leaves the cached string, its
    timestamp and the TTL as they were, so the cache is exactly as valid
    afterwards as before at every instant; [clearCache] empties the cached
    string, after which the cache is invalid at every instant and the next
    [toString] serialises the tree afresh. *)
Theorem cache_slot_frame :
  (forall s x lv x' s' n, add s x lv = (x', Some (s', n)) ->
     cache s' = cache s /\ cacheSetTimestamp s' = cacheSetTimestamp s /\
     cacheTime s' = cacheTime s /\ forall now, isCacheValid s' now = isCacheValid s now) /\
  (forall s x x' s' b, del s x = (x', Some (s', b)) ->
     cache s' = cache s /\ cacheSetTimestamp s' = cacheSetTimestamp s /\
     cacheTime s' = cacheTime s /\ forall now, isCacheValid s' now = isCacheValid s now) /\
  (forall s now pretty,
     cache (clearCache s) = EmptyString /\ isCacheValid (clearCache s) now = false /\
     snd (toString (clearCache s) now pretty) = xml_end pretty (rebuild s)).
Proof.
  split; [|split].
  - intros s x lv x' s' n H. destruct (add_success _ _ _ _ _ _ H) as (smi & _ & _ & -> & _).
    repeat split.
  - intros s x x' s' b H. destruct (del_success _ _ _ _ _ H) as (smi & _ & -> & _).
    repeat split.
  - intros s now pretty.
    assert (V : forall t, isCacheValid (set_root t (clearCache s)) now = false).
    { intros t. unfold isCacheValid. simpl. destruct (negb _); reflexivity. }
    split; [reflexivity|split].
    + exact (V (root s)).
    + unfold toString. rewrite V. reflexivity.
Qed.

End DocumentClaims.

Section CacheFacts.
Context {RT : Runtime}.

Lemma set_attrib_present : forall k v l, attr_get k l = Some v -> set_attrib k v l = l.
Proof.
  intros k v l; induction l as [|[k' v'] t IH]; simpl; [discriminate|].
  destruct (String.eqb_spec k k') as [->|Hne]; intros H.
  - injection H as ->. reflexivity.
  - rewrite IH by exact H. reflexivity.
Qed.

Lemma attr_get_set_same : forall k v l, attr_get k (set_attrib k v l) = Some v.
Proof.
  intros k v l; induction l as [|[k' v'] t IH]; simpl.
  - rewrite String.eqb_refl. reflexivity.
  - destruct (String.eqb k k') eqn:E; simpl; [rewrite String.eqb_refl; reflexivity|].
    rewrite E. exact IH.
Qed.

Lemma attr_get_set_other : forall k k2 v l,
  k <> k2 -> attr_get k (set_attrib k2 v l) = attr_get k l.
Proof.
  intros k k2 v l Hne; induction l as [|[k' v'] t IH]; simpl.
  - destruct (String.eqb_spec k k2); [contradiction|reflexivity].
  - destruct (String.eqb_spec k2 k') as [->|Hne']; simpl.
    + destruct (String.eqb_spec k k'); [contradiction|reflexivity].
    + destruct (String.eqb k k'); [reflexivity|exact IH].
Qed.

Lemma set_defaults_idem : forall l, set_defaults (set_defaults l) = set_defaults l.
Proof.
  intros l. unfold set_defaults. simpl.
  set (l6 := set_attrib "xmlns:video" _ (set_attrib "xmlns:image" _ (set_attrib "xmlns:mobile" _
               (set_attrib "xmlns:xhtml" _ (set_attrib "xmlns:news" _ (set_attrib "xmlns" _ l)))))).
  assert (G : forall k v, In (k, v) default_namespaces -> attr_get k l6 = Some v).
  { intros k v Hin. simpl in Hin. unfold l6.
    repeat destruct Hin as [Hin|Hin]; try contradiction; injection Hin as <- <-;
    repeat (rewrite attr_get_set_same || (rewrite attr_get_set_other by discriminate));
    reflexivity. }
  repeat (rewrite (set_attrib_present _ _ l6); [|apply G; simpl; tauto]).
  reflexivity.
Qed.

Lemma fold_append_attribs : forall (l : UrlMap) r,
  root_attribs (fold_left (fun r kv => append_child (buildXML (snd kv)) r) l r) = root_attribs r /\
  doc_instructions (fold_left (fun r kv => append_child (buildXML (snd kv)) r) l r) =
    doc_instructions r.
Proof.
  induction l as [|kv t IH]; intros r; simpl; [split; reflexivity|].
  destruct (IH (append_child (buildXML (snd kv)) r)) as [H1 H2]. rewrite H1, H2.
  split; reflexivity.
Qed.

Lemma fold_att_defaults : forall d,
  fold_left (fun r a => att (fst a) (snd a) r) default_namespaces d =
  mkDoc (doc_instructions d) (set_defaults (root_attribs d)) (root_children d).
Proof. intros [i a c]. reflexivity. Qed.

Lemma isCacheValid_root : forall r s now, isCacheValid (set_root r s) now = isCacheValid s now.
Proof. reflexivity. Qed.

Lemma xml_end_nonempty : forall p d, xml_end p d <> EmptyString.
Proof. intros p d. unfold xml_end, xml_decl. simpl. discriminate. Qed.

(** Within the TTL the cached string is returned as it is. *)
Lemma toString_cached : forall s now p,
  isCacheValid s now = true -> toString s now p = (set_root (prepare_root s) s, cache s).
Proof. intros s now p H. unfold toString. rewrite isCacheValid_root, H. reflexivity. Qed.

(** A TTL of 0 serialises on every call. *)
Lemma toString_ttl_zero : forall s now p,
  cacheTime s = 0%Z -> snd (toString s now p) = xml_end p (rebuild s).
Proof.
  intros s now p H. unfold toString. rewrite isCacheValid_root.
  unfold isCacheValid. rewrite H. reflexivity.
Qed.

(** Two calls with the second inside the TTL window return the same text. *)
Lemma toString_within_ttl : forall s t1 t2 p1 p2 s1 r1,
  cacheTime s <> 0%Z -> toString s t1 p1 = (s1, r1) ->
  (t2 <= cacheSetTimestamp s1 + cacheTime s1)%Z -> snd (toString s1 t2 p2) = r1.
Proof.
  intros s t1 t2 p1 p2 s1 r1 Hct H Ht.
  assert (V : isCacheValid s1 t2 = true /\ cache s1 = r1).
  { unfold toString in H. rewrite isCacheValid_root in H.
    destruct (isCacheValid s t1) eqn:V1.
    - injection H as <- <-. unfold isCacheValid in *. simpl in *.
      apply andb_prop in V1 as [V1 _]. rewrite V1. simpl.
      apply Z.leb_le in Ht. rewrite Ht. split; reflexivity.
    - injection H as <- <-. unfold isCacheValid. simpl in *.
      apply Z.eqb_neq in Hct. rewrite Hct.
      apply Z.leb_le in Ht. rewrite Ht. split; reflexivity. }
  destruct V as [V <-]. rewrite toString_cached by exact V. reflexivity.
Qed.

Lemma prepare_root_stable : forall s d,
  truthy_str (xslUrl s) = false ->
  root_attribs d = root_attribs (prepare_root s) ->
  doc_instructions d = doc_instructions (prepare_root s) ->
  prepare_root (set_root d s) = prepare_root s.
Proof.
  intros s d Hx HA HI. unfold prepare_root in *. cbn [xmlNs xslUrl root set_root] in *.
  rewrite Hx in *.
  destruct (String.eqb (xmlNs s) EmptyString).
  - rewrite !fold_att_defaults in *. destruct d as [I A C].
    cbn [root_attribs doc_instructions root_children clear_children] in *. subst.
    rewrite set_defaults_idem. reflexivity.
  - destruct d as [I A C].
    cbn [root_attribs doc_instructions root_children clear_children] in *. subst.
    reflexivity.
Qed.

(** Without an [xslUrl], a call made after a serialisation, at any time and
    with no change in between, returns the same text. *)
Lemma toString_again_no_xsl : forall s t1 t2 p s1 r1,
  truthy_str (xslUrl s) = false -> isCacheValid s t1 = false ->
  toString s t1 p = (s1, r1) -> snd (toString s1 t2 p) = r1.
Proof.
  intros s t1 t2 p s1 r1 Hx V H.
  unfold toString in H. rewrite isCacheValid_root, V in H. injection H as <- <-.
  unfold toString at 1. destruct (isCacheValid _ t2) eqn:V2; [reflexivity|].
  set (R := fold_left (fun r kv => append_child (buildXML (snd kv)) r) (urls s) (prepare_root s)).
  destruct (fold_append_attribs (urls s) (prepare_root s)) as [A I].
  change (prepare_root (set_cache_fields (xml_end p R) t1 (set_root R (set_root (prepare_root s) s))))
    with (prepare_root (set_root R s)).
  rewrite (prepare_root_stable s R Hx A I).
  reflexivity.
Qed.

End CacheFacts.

(** Claim C3 (code defect): with an [xslUrl], each call of [toString]
    splices one more [xml-stylesheet] instruction before the root, since
    [this.root.children = []] clears the root's children but not the
    document's.  A sitemap with no entries, TTL 1000 and an [xslUrl]
    serialised at time 0 and again at time 2000 (TTL expired, no change in
    between) yields one instruction the first time and two the second. *)
Theorem toString_repeats_stylesheet : forall RT : Runtime,
  match newSitemap xsl_opts with
  | Some s =>
      let (s1, r1) := toString s 0 false in
      let (s2, r2) := toString s1 2000 false in
      r1 = xml_decl ++ stylesheet_pi "https://example.com/style.xsl" ++ empty_urlset /\
      r2 = xml_decl ++ stylesheet_pi "https://example.com/style.xsl" ++
           stylesheet_pi "https://example.com/style.xsl" ++ empty_urlset /\
      r1 <> r2
  | None => False
  end.
Proof.
  intros RT. vm_compute. split; [reflexivity|split; [reflexivity|discriminate]].
Qed.

(* ------------------------------------------------------------------ *)
(** ** The stream *)

Section StreamFacts.
Context {RT : Runtime}.

Lemma write_all_after_head : forall items frags h lvl,
  Forall2 (emits h lvl) items frags ->
  write_all (mkStream true h lvl) items = (frags, Some (mkStream true h lvl)).
Proof.
  intros items frags h lvl HF. induction HF as [|it frag items frags [smi [E J]] HF IH]; [reflexivity|].
  simpl. unfold _transform. simpl. rewrite E, J. simpl. rewrite IH. reflexivity.
Qed.

(** Claim C2: a fresh stream ended after zero items emits only the closing
    tag; when every item written normalises and renders, a fresh stream
    ended after one or more items emits the preamble, then one fragment per
    item in the order written, then the closing tag, so the preamble comes
    first and exactly once. *)
Theorem stream_output : forall h level items frags,
  Forall2 (emits h (match level with Some l => l | None => WARN end)) items frags ->
  run_stream (newSitemapStream h level) items =
  (match items with
   | [] => [closetag]
   | _ => preamble :: frags ++ [closetag]
   end, true).
Proof.
  intros h level items frags HF. unfold run_stream, newSitemapStream.
  set (lvl := match level with Some l => l | None => WARN end) in *.
  destruct HF as [|it frag items frags [smi [E J]] HF]; [reflexivity|].
  simpl. unfold _transform. simpl. rewrite E, J. simpl.
  rewrite (write_all_after_head _ _ _ _ HF). reflexivity.
Qed.

End StreamFacts.

(* ------------------------------------------------------------------ *)
(** ** The normaliser: last-modified, URL resolution, writes to the input *)

Section NormalizeClaims.
Context {RT : Runtime}.

Lemma normalizeURL_body : forall h x x' r,
  normalizeURL x h = (x', Some r) ->
  exists o', normalizeBody h (loose_view x) = (o', Some r).
Proof.
  intros h [s|o] x' r H; unfold normalizeURL, loose_view in *.
  - injection H as _ H. exists (fst (normalizeBody h (mkLoose s None None None None None None None None))).
    rewrite <- H. destruct (normalizeBody h _); reflexivity.
  - destruct (normalizeBody h o) as [o1 r1]. injection H as _ ->. exists o1. reflexivity.
Qed.

Lemma omap_Forall2 : forall {A B} (f : A -> option B) l l',
  omap f l = Some l' -> Forall2 (fun a b => f a = Some b) l l'.
Proof.
  intros A B f l; induction l as [|a t IH]; simpl; intros l' H.
  - injection H as <-. constructor.
  - destruct (f a) as [b|] eqn:E; [|discriminate].
    destruct (omap f t) as [t'|]; [|discriminate]. injection H as <-.
    constructor; [exact E|apply IH; reflexivity].
Qed.

Lemma Forall2_impl_r : forall {A B} (P Q : A -> B -> Prop) (R : B -> Prop) l l',
  (forall a b, P a b -> Q a b /\ R b) -> Forall2 P l l' -> Forall2 Q l l' /\ Forall R l'.
Proof.
  intros A B P Q R l l' HPQ HF. induction HF as [|a b l l' Hab HF [IH1 IH2]].
  - split; constructor.
  - destruct (HPQ a b Hab). split; constructor; assumption.
Qed.

Lemma img_written_img : forall o, l_img (img_written o) = listify_img (l_img o).
Proof. intros o; loose_cases o. Qed.

Lemma img_written_video : forall o, l_video (img_written o) = l_video o.
Proof. intros o; loose_cases o. Qed.

Lemma video_written_video : forall o, l_video (video_written o) = listify_video (l_video o).
Proof. intros o; loose_cases o. Qed.

Lemma video_written_img : forall o, l_img (video_written o) = l_img o.
Proof. intros o; loose_cases o. Qed.

Lemma resolve_img_spec : forall h el i,
  resolve_img h el = Some i ->
  url_resolve (img_url el) h = Some (img_url i) /\ is_absolute (img_url i) = true.
Proof.
  unfold resolve_img. intros h el i E.
  destruct (url_resolve (img_url el) h) as [v|] eqn:Ev; [|discriminate].
  injection E as <-. simpl. split; [reflexivity|exact (url_resolve_absolute _ _ _ Ev)].
Qed.

Lemma resolve_link_spec : forall h l l',
  resolve_link h l = Some l' ->
  url_resolve (link_url l) h = Some (link_url l') /\ is_absolute (link_url l') = true.
Proof.
  unfold resolve_link. intros h l l' E.
  destruct (url_resolve (link_url l) h) as [v|] eqn:Ev; [|discriminate].
  injection E as <-. simpl. split; [reflexivity|exact (url_resolve_absolute _ _ _ Ev)].
Qed.

(** Claim C4: in a successful normalisation the last-modified value comes
    from the first of [lastmodfile], [lastmodISO], [lastmod] that is given
    (present and not the empty string): the file's modification time for
    [lastmodfile], the date's ISO-8601 form for the other two; with none of
    the three present the strict entry has no last-modified value. *)
Theorem lastmod_precedence : forall h x x' smi,
  normalizeURL x h = (x', Some smi) ->
  (forall f, l_lastmodfile (loose_view x) = Some f -> f <> EmptyString ->
     lastmod smi = stat_mtime_iso f) /\
  (forall d, truthy_str (l_lastmodfile (loose_view x)) = false ->
     l_lastmodISO (loose_view x) = Some d -> d <> EmptyString ->
     lastmod smi = date_iso d) /\
  (forall d, truthy_str (l_lastmodfile (loose_view x)) = false ->
     truthy_str (l_lastmodISO (loose_view x)) = false ->
     l_lastmod (loose_view x) = Some d -> d <> EmptyString ->
     lastmod smi = date_iso d) /\
  (l_lastmodfile (loose_view x) = None -> l_lastmodISO (loose_view x) = None ->
     l_lastmod (loose_view x) = None -> lastmod smi = None).
Proof.
  intros h x x' smi H.
  destruct (normalizeURL_body _ _ _ _ H) as [o' B].
  destruct (normalizeBody_success _ _ _ _ B) as (Ho' & u & imgs & lks & lm & _ & _ & _ & Hm & Hr).
  pose proof (same_other_fields_trans _ _ _ (img_written_other (loose_view x))
                (video_written_other (img_written (loose_view x)))) as Hs.
  rewrite <- Ho' in Hs. destruct Hs as (_ & _ & Hlm & _).
  rewrite Hr. unfold spread. cbn [lastmod]. rewrite Hlm.
  unfold resolve_lastmod in Hm.
  set (o := loose_view x) in *.
  repeat split.
  - intros f Ef Nf. rewrite Ef in Hm. unfold truthy_str in Hm.
    apply String.eqb_neq in Nf. rewrite Nf in Hm. simpl in Hm.
    destruct (stat_mtime_iso f); [injection Hm as <-; reflexivity|discriminate].
  - intros d Tf Ed Nd. rewrite Tf, Ed in Hm. unfold truthy_str in Hm.
    apply String.eqb_neq in Nd. rewrite Nd in Hm. simpl in Hm.
    destruct (date_iso d); [injection Hm as <-; reflexivity|discriminate].
  - intros d Tf Ti Ed Nd. rewrite Tf, Ti, Ed in Hm. unfold truthy_str in Hm.
    apply String.eqb_neq in Nd. rewrite Nd in Hm. simpl in Hm.
    destruct (date_iso d); [injection Hm as <-; reflexivity|discriminate].
  - intros Ef Ei El. rewrite Ef, Ei, El in Hm. simpl in Hm. injection Hm as <-.
    exact El.
Qed.

(** A successful normalisation sets [url] to the resolver's answer for the
    entry's URL against the base hostname, which is absolute; it resolves
    every image URL and every alternate-link URL the same way, so those are
    absolute too; the video URL fields ([thumbnail_loc], [content_loc],
    [player_loc]) are copied unchanged. *)
Theorem normalize_resolves_urls : forall h x x' smi,
  normalizeURL x h = (x', Some smi) ->
  url_resolve (l_url (loose_view x)) h = Some (url smi) /\ is_absolute (url smi) = true /\
  Forall2 (fun el i => url_resolve (img_url el) h = Some (img_url i))
    (img_list (loose_view x)) (img smi) /\
  Forall (fun i => is_absolute (img_url i) = true) (img smi) /\
  Forall2 (fun l l' => url_resolve (link_url l) h = Some (link_url l'))
    (links_list (loose_view x)) (links smi) /\
  Forall (fun l => is_absolute (link_url l) = true) (links smi) /\
  map v_thumbnail_loc (video smi) = map vl_thumbnail_loc (video_list (loose_view x)) /\
  map v_content_loc (video smi) = map vl_content_loc (video_list (loose_view x)) /\
  map v_player_loc (video smi) = map vl_player_loc (video_list (loose_view x)).
Proof.
  intros h x x' smi H.
  destruct (normalizeURL_body _ _ _ _ H) as [o' B].
  destruct (normalizeBody_success _ _ _ _ B) as (_ & u & imgs & lks & lm & Hu & Hi & Hl & _ & Hr).
  rewrite Hr. unfold spread. cbn [url img links video].
  destruct (Forall2_impl_r _ _ _ _ _ (resolve_img_spec h) (omap_Forall2 _ _ _ Hi)) as [I1 I2].
  destruct (Forall2_impl_r _ _ _ _ _ (resolve_link_spec h) (omap_Forall2 _ _ _ Hl)) as [L1 L2].
  rewrite !map_map. simpl.
  repeat split; try assumption.
  exact (url_resolve_absolute _ _ _ Hu).
Qed.

Lemma normalize_video_thumbnails : forall h x x' smi,
  normalizeURL x h = (x', Some smi) ->
  map v_thumbnail_loc (video smi) = map vl_thumbnail_loc (video_list (loose_view x)).
Proof.
  intros h x x' smi H.
  destruct (normalizeURL_body _ _ _ _ H) as [o' B].
  destruct (normalizeBody_success _ _ _ _ B) as (_ & u & imgs & lks & lm & _ & _ & _ & _ & Hr).
  rewrite Hr. unfold spread. cbn [video]. rewrite !map_map. reflexivity.
Qed.

(** Claim C5 (code defect): the spec resolves every image, video and link
    URL against the base hostname, but [normalizeURL] resolves only [url],
    the image URLs and the link URLs; a video's [thumbnail_loc] is copied as
    given.  So whenever an entry that normalises has a video whose
    thumbnail URL is relative, the strict entry holds that relative URL: not
    every URL of the strict entry is absolute. *)
Theorem normalize_keeps_relative_video_url : forall h x x' smi v,
  normalizeURL x h = (x', Some smi) ->
  In v (video_list (loose_view x)) -> is_absolute (vl_thumbnail_loc v) = false ->
  exists v', In v' (video smi) /\ v_thumbnail_loc v' = vl_thumbnail_loc v /\
    is_absolute (v_thumbnail_loc v') = false.
Proof.
  intros h x x' smi v H I A.
  pose proof (normalize_video_thumbnails h x x' smi H) as E.
  assert (T : In (vl_thumbnail_loc v) (map v_thumbnail_loc (video smi))).
  { rewrite E. apply in_map. exact I. }
  apply in_map_iff in T. destruct T as (v' & Ev & I').
  exists v'. rewrite Ev. exact (conj I' (conj eq_refl A)).
Qed.

(** Claim C8 (as the code does it): normalisation writes nothing to a
    caller's object except its [img] and [video] fields, and those only to
    wrap a single image (a non-empty string or an object) or a single video
    into a one-element array; an array or an absent field is left as it is,
    and a string input is not touched. *)
Theorem normalize_writes_only_img_video : forall h x,
  match x with
  | LStr s => fst (normalizeURL x h) = LStr s
  | LObj o =>
      exists o', fst (normalizeURL x h) = LObj o' /\ same_other_fields o o' /\
        (l_img o' = l_img o \/ l_img o' = listify_img (l_img o)) /\
        (l_video o' = l_video o \/ l_video o' = listify_video (l_video o))
  end.
Proof.
  intros h [s|o]; [reflexivity|].
  unfold normalizeURL. rewrite normalizeBody_eq. cbv zeta.
  pose proof (img_written_other o) as S1.
  pose proof (same_other_fields_trans _ _ _ S1 (video_written_other (img_written o))) as S2.
  assert (R0 : exists o', (o, @None SitemapItemOptions) = (o', None) /\ same_other_fields o o' /\
                 (l_img o' = l_img o \/ l_img o' = listify_img (l_img o)) /\
                 (l_video o' = l_video o \/ l_video o' = listify_video (l_video o))).
  { exists o. split; [reflexivity|]. split; [repeat split|split; left; reflexivity]. }
  assert (R1 : forall r : option SitemapItemOptions,
                 exists o', (img_written o, r) = (o', r) /\ same_other_fields o o' /\
                 (l_img o' = l_img o \/ l_img o' = listify_img (l_img o)) /\
                 (l_video o' = l_video o \/ l_video o' = listify_video (l_video o))).
  { intros r. exists (img_written o). split; [reflexivity|]. split; [exact S1|].
    split; [right; apply img_written_img|left; apply img_written_video]. }
  assert (R2 : forall r : option SitemapItemOptions,
                 exists o', (video_written (img_written o), r) = (o', r) /\
                 same_other_fields o o' /\
                 (l_img o' = l_img o \/ l_img o' = listify_img (l_img o)) /\
                 (l_video o' = l_video o \/ l_video o' = listify_video (l_video o))).
  { intros r. exists (video_written (img_written o)). split; [reflexivity|].
    split; [exact S2|]. rewrite video_written_img, video_written_video, img_written_video.
    split; [right; apply img_written_img|right; reflexivity]. }
  destruct (url_resolve (l_url o) h);
    [|destruct R0 as (o' & E & Hrest); exists o'; injection E as <-; exact (conj eq_refl Hrest)].
  destruct (omap (resolve_img h) (img_list o));
    [|destruct (R1 None) as (o' & E & Hrest); exists o'; injection E as <-; exact (conj eq_refl Hrest)].
  destruct (omap (resolve_link h) (links_list (img_written o)));
    [|destruct (R1 None) as (o' & E & Hrest); exists o'; injection E as <-; exact (conj eq_refl Hrest)].
  destruct (resolve_lastmod (video_written (img_written o)));
    destruct (R2 None) as (o' & E & Hrest); exists o'; injection E as <-; exact (conj eq_refl Hrest).
Qed.

End NormalizeClaims.

(** Claim C8, refuted: normalising [{url, img: 'https://example.com/a.png'}]
    rewrites the caller's object, whose [img] becomes
    [[{url: 'https://example.com/a.png'}]]. *)
Lemma normalize_rewrites_caller_img :
  fst (normalizeURL (RT := ModelRuntime) (LObj c8_object) None) =
    LObj (set_l_img (Some (ImgArr [ImgElemObj (mkImg "https://example.com/a.png"
                                                  None None None None)])) c8_object) /\
  fst (normalizeURL (RT := ModelRuntime) (LObj c8_object) None) <> LObj c8_object.
Proof. vm_compute. split; [reflexivity|discriminate]. Qed.

(** Claim C9 (code defect): every sitemap the constructor builds has
    [limit] 5000, while the comment above the field cites the sitemaps.org
    protocol, whose per-file limit is 50,000 URLs. *)
Theorem sitemap_limit_is_5000 : forall (RT : Runtime) opts s,
  newSitemap opts = Some s -> limit s = 5000%Z.
Proof.
  intros RT opts s. unfold newSitemap.
  destruct (if String.eqb _ EmptyString then _ else _) as [r|]; [|discriminate].
  destruct (normalizeURLs _ _); [|discriminate].
  destruct (forallb _ _); [|discriminate]. intros H. injection H as <-. reflexivity.
Qed.

Section Index.
Context {RT : Runtime}.

Lemma write_chunks_errors : forall fs o folder i cs ws ns e,
  write_chunks fs o folder i cs = (ws, ns, Some e) -> error_kind e <> ConfigurationPrecondition.
Proof.
  intros fs o folder i cs; revert i; induction cs as [|c rest IH]; intros i ws ns e H;
    simpl in H; [discriminate|].
  destruct (newSitemap _) as [s|]; [|injection H as _ _ <-; discriminate].
  destruct (fs_write _ _ _); [|injection H as _ _ <-; discriminate].
  destruct (write_chunks fs o folder (S i) rest) as [[ws' ns'] e'] eqn:E.
  injection H as _ _ ->. exact (IH _ _ _ _ E).
Qed.

(** Claim C10 (spec-modelled): an index run with no target folder, or with
    one that does not exist, ends with [UndefinedTargetFolder] having
    written nothing; that error is of the configuration-precondition kind,
    and no run with an existing target folder ends with an error of that
    kind, so it is told apart from data and collaborator errors. *)
Theorem index_target_precondition :
  (forall fs o,
     (si_targetFolder o = None \/
      exists t, si_targetFolder o = Some t /\ fs_dir_exists fs t = false) ->
     createSitemapIndex fs o = ([], Some UndefinedTargetFolder)) /\
  error_kind UndefinedTargetFolder = ConfigurationPrecondition /\
  (forall fs o t e,
     si_targetFolder o = Some t -> fs_dir_exists fs t = true ->
     snd (createSitemapIndex fs o) = Some e -> error_kind e <> ConfigurationPrecondition).
Proof.
  split; [|split; [reflexivity|]].
  - intros fs o [H|(t & H & D)]; unfold createSitemapIndex; rewrite H; [reflexivity|].
    rewrite D. reflexivity.
  - intros fs o t e H D R. unfold createSitemapIndex in R. rewrite H, D in R. simpl in R.
    destruct (write_chunks _ _ _ _ _) as [[ws ns] [e'|]] eqn:W.
    + simpl in R. injection R as <-. exact (write_chunks_errors _ _ _ _ _ _ _ _ W).
    + destruct (fs_write _ _ _); simpl in R; [discriminate|injection R as <-; discriminate].
Qed.

End Index.

(* ------------------------------------------------------------------ *)
(** ** The results at concrete inputs *)

Lemma add_same_url_replaces_witness :
  snd (normalizeURL w_x1 (hostname w_site)) = Some w_smi1 /\
  snd (normalizeURL w_x2 (hostname w_site)) = Some w_smi2 /\
  url w_smi1 = url w_smi2 /\
  add w_site w_x1 None = (w_x1, Some (w_s1, 1%nat)) /\
  add w_s1 w_x2 None = (w_x2, Some (w_s2, 1%nat)) /\
  (1%nat = 1%nat /\ map fst (urls w_s2) = map fst (urls w_s1) /\
   map_get (url w_smi1) (urls w_s2) = Some w_smi2).
Proof.
  assert (H1 : snd (normalizeURL w_x1 (hostname w_site)) = Some w_smi1) by (vm_compute; reflexivity).
  assert (H2 : snd (normalizeURL w_x2 (hostname w_site)) = Some w_smi2) by (vm_compute; reflexivity).
  assert (H3 : url w_smi1 = url w_smi2) by (vm_compute; reflexivity).
  assert (H4 : add w_site w_x1 None = (w_x1, Some (w_s1, 1%nat))) by (vm_compute; reflexivity).
  assert (H5 : add w_s1 w_x2 None = (w_x2, Some (w_s2, 1%nat))) by (vm_compute; reflexivity).
  refine (conj H1 (conj H2 (conj H3 (conj H4 (conj H5 _))))).
  exact (add_same_url_replaces w_site w_x1 w_x2 None None w_x1 w_x2 w_s1 w_s2 1 1
           w_smi1 w_smi2 H1 H2 H3 H4 H5).
Defined.

Lemma stream_output_witness :
  Forall2 (emits w_base WARN) [w_x1] [model_item w_smi1] /\
  run_stream (newSitemapStream w_base None) [w_x1] =
    ([preamble; model_item w_smi1; closetag], true).
Proof.
  assert (H : Forall2 (emits w_base WARN) [w_x1] [model_item w_smi1]).
  { constructor; [|constructor]. exists w_smi1. split; vm_compute; reflexivity. }
  split; [exact H|]. exact (stream_output w_base None [w_x1] [model_item w_smi1] H).
Defined.

Lemma lastmod_precedence_witness :
  normalizeURL w_x4 w_base = (w_x4, Some w_smi4) /\
  lastmod w_smi4 = Some "2019-07-01T00:00:00.000Z".
Proof.
  assert (H : normalizeURL w_x4 w_base = (w_x4, Some w_smi4)) by (vm_compute; reflexivity).
  split; [exact H|].
  assert (F : "/tmp/f" <> EmptyString) by discriminate.
  exact (proj1 (lastmod_precedence w_base w_x4 w_x4 w_smi4 H) "/tmp/f" eq_refl F).
Defined.

Lemma normalize_resolves_urls_witness :
  normalizeURL c5_input w_base = (w_x5, Some w_smi5) /\
  url_resolve "/page" w_base = Some (url w_smi5) /\ is_absolute (url w_smi5) = true /\
  Forall2 (fun el i => url_resolve (img_url el) w_base = Some (img_url i))
    (img_list (loose_view c5_input)) (img w_smi5) /\
  Forall2 (fun l l' => url_resolve (link_url l) w_base = Some (link_url l'))
    (links_list (loose_view c5_input)) (links w_smi5) /\
  map img_url (img w_smi5) = ["https://example.com/a.png"] /\
  map link_url (links w_smi5) = ["https://example.com/fr/page"].
Proof.
  assert (H : normalizeURL c5_input w_base = (w_x5, Some w_smi5)) by (vm_compute; reflexivity).
  split; [exact H|].
  destruct (normalize_resolves_urls w_base c5_input w_x5 w_smi5 H) as (R & A & I & _ & L & _).
  refine (conj R (conj A (conj I (conj L (conj _ _))))); vm_compute; reflexivity.
Defined.

Lemma normalize_keeps_relative_video_url_witness :
  normalizeURL c5_input w_base = (w_x5, Some w_smi5) /\
  url w_smi5 = "https://example.com/page" /\
  map img_url (img w_smi5) = ["https://example.com/a.png"] /\
  map link_url (links w_smi5) = ["https://example.com/fr/page"] /\
  exists v', In v' (video w_smi5) /\ v_thumbnail_loc v' = "/thumb.jpg" /\
    is_absolute (v_thumbnail_loc v') = false.
Proof.
  assert (H : normalizeURL c5_input w_base = (w_x5, Some w_smi5)) by (vm_compute; reflexivity).
  refine (conj H (conj _ (conj _ (conj _ _)))); [vm_compute; reflexivity..|].
  assert (I : In c5_video (video_list (loose_view c5_input))) by (left; reflexivity).
  assert (A : is_absolute (vl_thumbnail_loc c5_video) = false) by reflexivity.
  exact (normalize_keeps_relative_video_url w_base c5_input w_x5 w_smi5 c5_video H I A).
Defined.

Lemma contains_after_add_del_witness :
  map_wf (urls w_s1) /\
  add w_s1 w_x2 None = (w_x2, Some (w_s2, 1%nat)) /\
  contains w_s2 w_x2 = (w_x2, Some true) /\
  del w_s1 w_x1 = (w_x1, Some (w_s3, true)) /\
  contains w_s3 w_x1 = (w_x1, Some false) /\ snd (contains w_s1 w_x1) = Some true.
Proof.
  assert (W : map_wf (urls w_s1)).
  { vm_compute. constructor; [intros []|constructor]. }
  assert (A : add w_s1 w_x2 None = (w_x2, Some (w_s2, 1%nat))) by (vm_compute; reflexivity).
  assert (D : del w_s1 w_x1 = (w_x1, Some (w_s3, true))) by (vm_compute; reflexivity).
  destruct (contains_after_add_del w_s1 w_x2 None W) as [CA _].
  destruct (contains_after_add_del w_s1 w_x1 None W) as [_ CD].
  exact (conj W (conj A (conj (CA _ _ _ A) (conj D (CD _ _ _ D))))).
Defined.

Lemma cache_slot_frame_witness :
  add w_site w_x1 None = (w_x1, Some (w_s1, 1%nat)) /\
  cache w_s1 = cache w_site /\ cacheTime w_s1 = cacheTime w_site.
Proof.
  assert (H : add w_site w_x1 None = (w_x1, Some (w_s1, 1%nat))) by (vm_compute; reflexivity).
  destruct (proj1 cache_slot_frame _ _ _ _ _ _ H) as [C [_ [T _]]].
  exact (conj H (conj C T)).
Defined.

Lemma sitemap_limit_is_5000_witness :
  newSitemap xsl_opts = Some w_s9 /\ limit w_s9 = 5000%Z.
Proof.
  assert (H : newSitemap xsl_opts = Some w_s9) by (vm_compute; reflexivity).
  exact (conj H (sitemap_limit_is_5000 ModelRuntime xsl_opts w_s9 H)).
Defined.

Lemma index_target_precondition_witness :
  fs_dir_exists w_fs "/tmp/out" = false /\
  createSitemapIndex w_fs w_index_opts = ([], Some UndefinedTargetFolder).
Proof.
  assert (D : fs_dir_exists w_fs "/tmp/out" = false) by reflexivity.
  split; [exact D|].
  apply (proj1 index_target_precondition).
  right. exists "/tmp/out". split; [reflexivity|exact D].
Defined.

(* ------------------------------------------------------------------ *)
(** ** More of the normaliser *)

Section NormalizeMore.
Context {RT : Runtime}.

(** A bare string [s] normalises to the entry with URL [new URL(s, h)] and
    nothing else (no images, videos, links or last-modified date); the
    string itself is not changed. *)
Theorem normalizeURL_string : forall s h,
  normalizeURL (LStr s) h =
  (LStr s, option_map (fun u => mkSMI u [] [] [] None None None None None) (url_resolve s h)).
Proof.
  intros s h. unfold normalizeURL. rewrite normalizeBody_eq. simpl.
  destruct (@url_resolve RT s h) as [u|]; reflexivity.
Qed.

(** When the entry's own URL does not resolve against the base, the call
    throws before any write: the caller's input is left as it was. *)
Theorem normalizeURL_bad_url_no_write : forall x h,
  url_resolve (l_url (loose_view x)) h = None -> normalizeURL x h = (x, None).
Proof.
  intros [s|o] h H; unfold normalizeURL; rewrite normalizeBody_eq;
    cbn [loose_view l_url] in *; rewrite H; reflexivity.
Qed.

(** Normalising the caller's input a second time, as [add], [contains]
    and [del] each do, gives the same entry and writes nothing more. *)
Theorem normalizeURL_twice : forall h x x' r,
  normalizeURL x h = (x', Some r) -> normalizeURL x' h = (x', Some r).
Proof. exact normalizeURL_idem. Qed.

(** The strict entry carries the input's [changefreq], [priority],
    [lastmodISO] and [lastmodfile] unchanged. *)
Theorem normalizeURL_copies_fields : forall h x x' smi,
  normalizeURL x h = (x', Some smi) ->
  changefreq smi = l_changefreq (loose_view x) /\ priority smi = l_priority (loose_view x) /\
  lastmodISO smi = l_lastmodISO (loose_view x) /\ lastmodfile smi = l_lastmodfile (loose_view x).
Proof.
  intros h x x' smi H.
  destruct (normalizeURL_body _ _ _ _ H) as [o' B].
  destruct (normalizeBody_success _ _ _ _ B) as (Ho' & u & imgs & lks & lm & _ & _ & _ & _ & Hr).
  pose proof (same_other_fields_trans _ _ _ (img_written_other (loose_view x))
                (video_written_other (img_written (loose_view x)))) as Hs.
  rewrite <- Ho' in Hs. destruct Hs as (_ & _ & _ & Hi & Hf & Hc & Hp).
  rewrite Hr. unfold spread. cbn. repeat split; assumption.
Qed.

(** The call throws exactly when the entry's URL, one of its image URLs or
    one of its link URLs does not resolve, or the date the last-modified
    rule picks is invalid. *)
Theorem normalizeURL_fails_iff : forall h x,
  snd (normalizeURL x h) = None <->
  url_resolve (l_url (loose_view x)) h = None \/
  omap (resolve_img h) (img_list (loose_view x)) = None \/
  omap (resolve_link h) (links_list (loose_view x)) = None \/
  resolve_lastmod (loose_view x) = None.
Proof.
  intros h x.
  assert (E : snd (normalizeURL x h) = snd (normalizeBody h (loose_view x))).
  { destruct x as [s|o]; simpl; [reflexivity|]. destruct (normalizeBody h o); reflexivity. }
  rewrite E, normalizeBody_eq. cbv zeta. set (o := loose_view x).
  rewrite (links_list_other _ _ (img_written_other o)).
  rewrite (resolve_lastmod_other _ _ (same_other_fields_trans _ _ _ (img_written_other o)
                                        (video_written_other (img_written o)))).
  destruct (url_resolve (l_url o) h); [|simpl; tauto].
  destruct (omap (resolve_img h) (img_list o)); [|simpl; tauto].
  destruct (omap (resolve_link h) (links_list o)); [|simpl; tauto].
  destruct (resolve_lastmod o); simpl; [|tauto].
  split; [discriminate|]. intros [H|[H|[H|H]]]; discriminate.
Qed.

End NormalizeMore.

(* ------------------------------------------------------------------ *)
(** ** [Sitemap.normalizeURLs] *)

Section NormalizeURLsFacts.
Context {RT : Runtime}.

Lemma map_get_set : forall k k' v m,
  map_get k (map_set k' v m) = if String.eqb k k' then Some v else map_get k m.
Proof.
  intros k k' v m; induction m as [|[k2 v2] t IH]; simpl.
  - reflexivity.
  - destruct (String.eqb_spec k' k2) as [->|Hne]; simpl.
    + destruct (String.eqb k k2); reflexivity.
    + rewrite IH. destruct (String.eqb_spec k k') as [->|Hk]; [|reflexivity].
      apply String.eqb_neq in Hne. rewrite Hne. reflexivity.
Qed.

Lemma map_has_existsb : forall k m, map_has k m = existsb (String.eqb k) (map fst m).
Proof.
  intros k m; induction m as [|[k' v'] t IH]; simpl; [reflexivity|]. rewrite IH. reflexivity.
Qed.

Definition set_all (smis : list SitemapItemOptions) (m : UrlMap) : UrlMap :=
  fold_left (fun m smi => map_set (url smi) smi m) smis m.

Lemma normalizeURLs_fold : forall h us m0,
  fold_left (fun acc elem =>
               match acc, snd (normalizeURL elem h) with
               | Some m, Some smio => Some (map_set (url smio) smio m)
               | _, _ => None
               end) us (Some m0) =
  option_map (fun smis => set_all smis m0) (omap (fun u => snd (normalizeURL u h)) us).
Proof.
  intros h us. induction us as [|u t IH]; intros m0; simpl; [reflexivity|].
  destruct (snd (@normalizeURL RT u h)) as [smi|].
  - rewrite IH. destruct (omap _ t); reflexivity.
  - clear IH. induction t as [|u' t' IH']; simpl; [reflexivity|].
    destruct (snd (@normalizeURL RT u' h)); exact IH'.
Qed.

Lemma set_all_get : forall k smis m0,
  map_get k (set_all smis m0) =
  match last_with k smis with Some y => Some y | None => map_get k m0 end.
Proof.
  intros k smis. unfold set_all. induction smis as [|x t IH]; intros m0; simpl; [reflexivity|].
  rewrite IH, map_get_set. destruct (last_with k t); [reflexivity|].
  destruct (String.eqb k (url x)); reflexivity.
Qed.

Lemma set_all_keys : forall smis m0,
  map fst (set_all smis m0) =
  fold_left (fun ks k => if existsb (String.eqb k) ks then ks else (ks ++ [k])%list)
    (map url smis) (map fst m0).
Proof.
  intros smis. unfold set_all. induction smis as [|x t IH]; intros m0; simpl; [reflexivity|].
  rewrite IH, map_set_keys, map_has_existsb. destruct (existsb _ _); reflexivity.
Qed.

(** [normalizeURLs] (and so the constructor) throws exactly when one of
    the entries does not normalise. *)
Theorem normalizeURLs_fails_iff : forall us h,
  normalizeURLs us h = None <-> Exists (fun u => snd (normalizeURL u h) = None) us.
Proof.
  intros us h. unfold normalizeURLs. rewrite normalizeURLs_fold.
  induction us as [|u t IH]; simpl.
  - split; [discriminate|intros H; inversion H].
  - rewrite Exists_cons. destruct (snd (@normalizeURL RT u h)) as [smi|].
    + rewrite <- IH. destruct (omap _ t); simpl; split.
      * discriminate.
      * intros [H|H]; discriminate.
      * intros _. right. reflexivity.
      * intros _. reflexivity.
    + simpl. split; [intros _; left; reflexivity|reflexivity].
Qed.

(** The map [normalizeURLs] builds holds one key per distinct resolved URL,
    in the order the URLs first occur, and under each URL the last entry
    with that URL. *)
Theorem normalizeURLs_last_wins : forall us h m,
  normalizeURLs us h = Some m ->
  exists smis, omap (fun u => snd (normalizeURL u h)) us = Some smis /\
    map fst m = dedup_first (map url smis) /\
    forall k, map_get k m = last_with k smis.
Proof.
  intros us h m H. unfold normalizeURLs in H. rewrite normalizeURLs_fold in H.
  destruct (omap _ us) as [smis|]; [|discriminate]. injection H as <-.
  exists smis. split; [reflexivity|split].
  - rewrite set_all_keys. reflexivity.
  - intros k. rewrite set_all_get. destruct (last_with k smis); reflexivity.
Qed.

End NormalizeURLsFacts.

(* ------------------------------------------------------------------ *)
(** ** [add] and [del] on the rest of the document *)

Section MapMore.

Lemma map_set_absent : forall k v m, map_has k m = false -> map_set k v m = (m ++ [(k, v)])%list.
Proof.
  intros k v m; induction m as [|[k' v'] t IH]; simpl; intros H; [reflexivity|].
  apply orb_false_iff in H as [H1 H2]. rewrite H1, IH by exact H2. reflexivity.
Qed.

Lemma map_delete_app_absent : forall k v m,
  map_has k m = false -> map_delete k (m ++ [(k, v)])%list = (m, true).
Proof.
  intros k v m; induction m as [|[k' v'] t IH]; simpl; intros H.
  - rewrite String.eqb_refl. reflexivity.
  - apply orb_false_iff in H as [H1 H2]. rewrite H1, IH by exact H2. reflexivity.
Qed.

Lemma map_delete_absent : forall k m, snd (map_delete k m) = false -> fst (map_delete k m) = m.
Proof.
  intros k m; induction m as [|[k' v'] t IH]; simpl; intros H; [reflexivity|].
  destruct (String.eqb k k'); [discriminate|].
  destruct (map_delete k t) as [t' b]. simpl in *. rewrite IH by exact H. reflexivity.
Qed.

Lemma map_get_delete_other : forall k k' m,
  k' <> k -> map_get k' (fst (map_delete k m)) = map_get k' m.
Proof.
  intros k k' m Hne; induction m as [|[k2 v2] t IH]; simpl; [reflexivity|].
  destruct (String.eqb_spec k k2) as [<-|Hk].
  - apply String.eqb_neq in Hne. rewrite Hne. reflexivity.
  - destruct (map_delete k t) as [t' b]. simpl in *. rewrite IH. reflexivity.
Qed.

Lemma map_get_none : forall k m, map_has k m = false -> map_get k m = None.
Proof.
  intros k m; induction m as [|[k' v'] t IH]; simpl; intros H; [reflexivity|].
  apply orb_false_iff in H as [H1 H2]. rewrite H1. exact (IH H2).
Qed.

Lemma map_delete_keys : forall k m,
  map_wf m ->
  map fst (fst (map_delete k m)) = filter (fun k' => negb (String.eqb k k')) (map fst m).
Proof.
  intros k m; induction m as [|[k' v'] t IH]; simpl; intros W; [reflexivity|].
  inversion W as [|? ? Hn Wt]; subst.
  destruct (String.eqb_spec k k') as [<-|Hk]; simpl.
  - symmetry. apply forallb_filter_id. apply forallb_forall. intros y Hy.
    destruct (String.eqb_spec k y) as [->|]; [contradiction|reflexivity].
  - destruct (map_delete k t) as [t' b] eqn:E. simpl. rewrite <- (IH Wt). reflexivity.
Qed.

End MapMore.

Section DocumentMore.
Context {RT : Runtime}.

(** A successful [add] stores the entry under its resolved URL, appends
    that URL at the end when it is new and keeps its place otherwise,
    leaves every other URL's entry as it was, and returns the new number
    of entries. *)
Theorem add_frame : forall s x lv x' s' n,
  add s x lv = (x', Some (s', n)) ->
  exists smi, snd (normalizeURL x (hostname s)) = Some smi /\
    map_get (url smi) (urls s') = Some smi /\
    (forall k, k <> url smi -> map_get k (urls s') = map_get k (urls s)) /\
    map fst (urls s') = (if map_has (url smi) (urls s) then map fst (urls s)
                         else (map fst (urls s) ++ [url smi])%list) /\
    n = length (urls s').
Proof.
  intros s x lv x' s' n H. destruct (add_success _ _ _ _ _ _ H) as (smi & N & _ & -> & ->).
  exists smi. rewrite N. cbn [urls set_urls snd]. split; [reflexivity|split; [|split; [|split]]].
  - apply map_get_set_same.
  - intros k Hk. rewrite map_get_set. apply String.eqb_neq in Hk. rewrite Hk. reflexivity.
  - apply map_set_keys.
  - reflexivity.
Qed.

(** On a map with distinct keys, a successful [del] removes the entry's
    resolved URL, keeps the other URLs in their order with their entries,
    and returns whether the URL was there. *)
Theorem del_frame : forall s x x' s' b,
  map_wf (urls s) -> del s x = (x', Some (s', b)) ->
  exists smi, snd (normalizeURL x (hostname s)) = Some smi /\
    b = map_has (url smi) (urls s) /\
    map_get (url smi) (urls s') = None /\
    (forall k, k <> url smi -> map_get k (urls s') = map_get k (urls s)) /\
    map fst (urls s') = filter (fun k => negb (String.eqb (url smi) k)) (map fst (urls s)).
Proof.
  intros s x x' s' b W H. destruct (del_success _ _ _ _ _ H) as (smi & N & -> & ->).
  exists smi. rewrite N. cbn [urls set_urls snd]. split; [reflexivity|split; [|split; [|split]]].
  - apply map_delete_has.
  - apply map_get_none. apply map_delete_gone. exact W.
  - intros k Hk. apply map_get_delete_other. exact Hk.
  - apply map_delete_keys. exact W.
Qed.

(** Deleting an entry whose resolved URL is not in the document returns
    [false] and leaves the sitemap exactly as it was. *)
Theorem del_absent_unchanged : forall s x x' smi,
  normalizeURL x (hostname s) = (x', Some smi) -> map_has (url smi) (urls s) = false ->
  del s x = (x', Some (s, false)).
Proof.
  intros s x x' smi N Hn. unfold del, _normalizeURL. rewrite N. cbn [option_map].
  pose proof (map_delete_has (url smi) (urls s)) as Hb. rewrite Hn in Hb.
  pose proof (map_delete_absent (url smi) (urls s) Hb) as Hm.
  destruct (map_delete (url smi) (urls s)) as [m b]. simpl in Hb, Hm. subst m b.
  destruct s; reflexivity.
Qed.

(** Adding an entry whose URL is new and then deleting it again, with the
    object [add] left behind, returns [true] and restores the URL map. *)
Theorem add_then_del_restores : forall s x lv x' s1 n smi,
  snd (normalizeURL x (hostname s)) = Some smi -> map_has (url smi) (urls s) = false ->
  add s x lv = (x', Some (s1, n)) ->
  exists s2, del s1 x' = (x', Some (s2, true)) /\ urls s2 = urls s.
Proof.
  intros s x lv x' s1 n smi N Hn H. destruct (add_success _ _ _ _ _ _ H) as (smi' & N' & _ & -> & _).
  rewrite N' in N. simpl in N. injection N as ->.
  pose proof (normalizeURL_idem _ _ _ _ N') as N2.
  exists (set_urls (urls s) (set_urls (map_set (url smi) smi (urls s)) s)).
  unfold del, _normalizeURL. cbn [hostname set_urls urls]. rewrite N2. simpl.
  rewrite map_set_absent by exact Hn. rewrite map_delete_app_absent by exact Hn.
  split; reflexivity.
Qed.

End DocumentMore.

(* ------------------------------------------------------------------ *)
(** ** More of [toString] *)

Section SerialiseMore.
Context {RT : Runtime}.

Lemma fold_append_children : forall (l : UrlMap) d,
  root_children (fold_left (fun r kv => append_child (buildXML (snd kv)) r) l d) =
  (root_children d ++ map (fun kv => buildXML (snd kv)) l)%list.
Proof.
  induction l as [|kv t IH]; intros d; simpl; [rewrite app_nil_r; reflexivity|].
  rewrite IH. simpl. rewrite <- app_assoc. reflexivity.
Qed.

Lemma prepare_root_children : forall s, root_children (prepare_root s) = [].
Proof.
  intros s. unfold prepare_root.
  destruct (String.eqb (xmlNs s) EmptyString); [rewrite fold_att_defaults|];
    destruct (truthy_str (xslUrl s)); reflexivity.
Qed.

Lemma prepare_root_attribs : forall s,
  root_attribs (prepare_root s) =
  if String.eqb (xmlNs s) EmptyString then set_defaults (root_attribs (root s))
  else root_attribs (root s).
Proof.
  intros s. unfold prepare_root.
  destruct (String.eqb (xmlNs s) EmptyString); [rewrite fold_att_defaults|];
    destruct (truthy_str (xslUrl s)); reflexivity.
Qed.

Lemma toString_root_attribs : forall s now p s1 r,
  toString s now p = (s1, r) -> root_attribs (root s1) = root_attribs (prepare_root s).
Proof.
  intros s now p s1 r H. unfold toString in H. rewrite isCacheValid_root in H.
  destruct (isCacheValid s now); injection H as <- _; [reflexivity|].
  apply (@fold_append_attribs RT).
Qed.

(** A serialisation that does not answer from the cache renders the
    current entries: the text is the rebuilt document, it becomes the cache
    with the call's time as timestamp, and the root's children are exactly
    one element per entry, in the map's order, whatever children earlier
    calls left. *)
Theorem toString_rebuilds : forall s now p s1 r,
  isCacheValid s now = false -> toString s now p = (s1, r) ->
  r = xml_end p (rebuild s) /\ cache s1 = r /\ cacheSetTimestamp s1 = now /\
  urls s1 = urls s /\ root_children (root s1) = map (fun kv => buildXML (snd kv)) (urls s).
Proof.
  intros s now p s1 r V H. unfold toString in H. rewrite isCacheValid_root, V in H.
  injection H as <- <-. cbn. repeat split.
  rewrite fold_append_children, prepare_root_children. reflexivity.
Qed.

(** With a TTL, a second call inside the TTL window returns the text the
    first call returned. *)
Theorem toString_same_within_ttl : forall s t1 t2 p1 p2 s1 r1,
  cacheTime s <> 0%Z -> toString s t1 p1 = (s1, r1) ->
  (t2 <= cacheSetTimestamp s1 + cacheTime s1)%Z -> snd (toString s1 t2 p2) = r1.
Proof. exact toString_within_ttl. Qed.

(** Without an [xslUrl], a call after a serialisation that rebuilt the
    document returns the same text at any later time, with no change in
    between. *)
Theorem toString_stable_without_xsl : forall s t1 t2 p s1 r1,
  truthy_str (xslUrl s) = false -> isCacheValid s t1 = false ->
  toString s t1 p = (s1, r1) -> snd (toString s1 t2 p) = r1.
Proof. exact toString_again_no_xsl. Qed.

(** Without [xmlNs], [toString] gives the root the six default namespace
    attributes with their values; with [xmlNs] it adds none and keeps the
    attributes the constructor set. *)
Theorem toString_namespaces : forall s now p s1 r,
  toString s now p = (s1, r) ->
  (xmlNs s = EmptyString ->
     forall k v, In (k, v) default_namespaces -> attr_get k (root_attribs (root s1)) = Some v) /\
  (xmlNs s <> EmptyString -> root_attribs (root s1) = root_attribs (root s)).
Proof.
  intros s now p s1 r H. rewrite (toString_root_attribs _ _ _ _ _ H), prepare_root_attribs.
  split.
  - intros E k v Hin. rewrite E. simpl. unfold set_defaults. simpl.
    destruct Hin as [Hin|[Hin|[Hin|[Hin|[Hin|[Hin|[]]]]]]]; injection Hin as <- <-;
      repeat (rewrite attr_get_set_other by (intro Q; discriminate Q));
      apply attr_get_set_same.
  - intros E. apply String.eqb_neq in E. rewrite E. reflexivity.
Qed.

End SerialiseMore.

(* ------------------------------------------------------------------ *)
(** ** More of the stream *)

Section StreamMore.
Context {RT : Runtime}.

Lemma write_all_stops : forall h lvl pre frags bad post,
  Forall2 (emits h lvl) pre frags -> snd (normalizeURL bad h) = None ->
  write_all (mkStream true h lvl) (pre ++ bad :: post) = (frags, None).
Proof.
  intros h lvl pre frags bad post HF B.
  induction HF as [|it frag items frags [smi [E J]] HF IH]; simpl; unfold _transform; simpl.
  - rewrite B. reflexivity.
  - rewrite E, J. simpl. rewrite IH. reflexivity.
Qed.

(** When an item does not normalise, the stream stops there: it has
    emitted the preamble and the fragments of the items before it, and
    never emits the closing tag. *)
Theorem stream_stops_on_bad_item : forall h level pre frags bad post,
  Forall2 (emits h (match level with Some l => l | None => WARN end)) pre frags ->
  snd (normalizeURL bad h) = None ->
  run_stream (newSitemapStream h level) (pre ++ bad :: post) = (preamble :: frags, false).
Proof.
  intros h level pre frags bad post HF B. unfold run_stream, newSitemapStream.
  set (lvl := match level with Some l => l | None => WARN end) in *.
  destruct HF as [|it frag items frags [smi [E J]] HF]; simpl; unfold _transform; simpl.
  - rewrite B. reflexivity.
  - rewrite E, J. simpl. rewrite (write_all_stops _ _ _ _ _ _ HF B). reflexivity.
Qed.

End StreamMore.

(* ------------------------------------------------------------------ *)
(** ** The constructor *)

Section ConstructorMore.
Context {RT : Runtime}.

Lemma split_on_app : forall c k w,
  ~ In c (list_ascii_of_string k) ->
  split_on c (k ++ String c w) = k :: split_on c w.
Proof.
  intros c k w; induction k as [|d t IH]; intros Hk; simpl.
  - rewrite Ascii.eqb_refl. reflexivity.
  - simpl in Hk. destruct (Ascii.eqb_spec c d) as [->|_]; [exfalso; apply Hk; left; reflexivity|].
    rewrite IH by (intro Q; apply Hk; right; exact Q). reflexivity.
Qed.

Lemma split_on_none : forall c w, ~ In c (list_ascii_of_string w) -> split_on c w = [w].
Proof.
  intros c w; induction w as [|d t IH]; intros Hw; simpl; [reflexivity|].
  simpl in Hw. destruct (Ascii.eqb_spec c d) as [->|_]; [exfalso; apply Hw; left; reflexivity|].
  rewrite IH by (intro Q; apply Hw; right; exact Q). reflexivity.
Qed.

Lemma list_ascii_app : forall a b,
  list_ascii_of_string (a ++ b) = (list_ascii_of_string a ++ list_ascii_of_string b)%list.
Proof. intros a b; induction a as [|c t IH]; simpl; [reflexivity|rewrite IH; reflexivity]. Qed.

Lemma drop_last_quote_app : forall v c,
  is_quote c = true -> drop_last_quote (v ++ String c EmptyString) = v.
Proof.
  intros v c Hc; induction v as [|a t IH]; [simpl; rewrite Hc; reflexivity|].
  change (String a t ++ String c EmptyString) with (String a (t ++ String c EmptyString)).
  transitivity (String a (drop_last_quote (t ++ String c EmptyString))); [|rewrite IH; reflexivity].
  destruct (t ++ String c EmptyString) as [|b u] eqn:E; [destruct t; discriminate|reflexivity].
Qed.

Lemma drop_last_quote_none : forall v,
  (forall c, In c (list_ascii_of_string v) -> is_quote c = false) -> drop_last_quote v = v.
Proof.
  intros v; induction v as [|a t IH]; intros Hv; simpl; [reflexivity|].
  destruct t as [|b u].
  - rewrite (Hv a (or_introl eq_refl)). reflexivity.
  - rewrite IH; [reflexivity|]. intros c Hc. apply Hv. right. exact Hc.
Qed.

(** An [xmlNs] item [k="v"], [k='v'] or [k=v], with no [=] in [k] or [v]
    and no quote in [v], gives the attribute [k] with the value [v]. *)
Theorem ns_attrib_roundtrip : forall k v,
  ~ In "="%char (list_ascii_of_string k) -> ~ In "="%char (list_ascii_of_string v) ->
  (forall c, In c (list_ascii_of_string v) -> is_quote c = false) ->
  ns_attrib (k ++ "=" ++ quote v) = Some (k, v) /\
  ns_attrib (k ++ "=" ++ "'" ++ v ++ "'") = Some (k, v) /\
  ns_attrib (k ++ "=" ++ v) = Some (k, v).
Proof.
  intros k v Hk Hv Hq. unfold ns_attrib, quote, dq.
  assert (Hdq : ~ In "="%char (list_ascii_of_string (String (ascii_of_nat 34) EmptyString ++
                                 v ++ String (ascii_of_nat 34) EmptyString))).
  { simpl. rewrite list_ascii_app. simpl. rewrite in_app_iff. simpl.
    intros [Q|[Q|[Q|Q]]]; [discriminate Q|exact (Hv Q)|discriminate Q|exact Q]. }
  assert (Hsq : ~ In "="%char (list_ascii_of_string ("'" ++ v ++ "'"))).
  { simpl. rewrite list_ascii_app. simpl. rewrite in_app_iff. simpl.
    intros [Q|[Q|[Q|Q]]]; [discriminate Q|exact (Hv Q)|discriminate Q|exact Q]. }
  change ("=" ++ ?w) with (String "="%char w).
  rewrite !split_on_app by exact Hk.
  rewrite (split_on_none _ _ Hdq), (split_on_none _ _ Hsq), (split_on_none _ _ Hv).
  unfold strip_quotes. simpl. repeat split.
  - rewrite (drop_last_quote_app v (ascii_of_nat 34) eq_refl). reflexivity.
  - rewrite (drop_last_quote_app v "'"%char eq_refl). reflexivity.
  - destruct v as [|a t]; [reflexivity|].
    rewrite (Hq a (or_introl eq_refl)), drop_last_quote_none by exact Hq. reflexivity.
Qed.

(** A non-empty [xmlNs] with an item that has no [=] (an empty item from
    two spaces in a row included) makes the constructor throw. *)
Theorem newSitemap_bad_xmlNs : forall opts ns item,
  o_xmlNs opts = Some ns -> ns <> EmptyString ->
  In item (split_on " " ns) -> ns_attrib item = None -> newSitemap opts = None.
Proof.
  intros opts ns item Hns Hne Hin Hbad. unfold newSitemap. rewrite Hns.
  apply String.eqb_neq in Hne as Hne'. unfold truthy_str. rewrite Hne'. simpl. rewrite Hne'.
  assert (Z : forall l, fold_left (fun acc attr =>
                 match acc, ns_attrib attr with
                 | Some r, Some (k, v) => Some (att k v r)
                 | _, _ => None
                 end) l None = None).
  { induction l as [|a t IH]; simpl; [reflexivity|exact IH]. }
  assert (G : forall l r0, In item l -> fold_left (fun acc attr =>
                 match acc, ns_attrib attr with
                 | Some r, Some (k, v) => Some (att k v r)
                 | _, _ => None
                 end) l (Some r0) = None).
  { induction l as [|a t IH]; intros r0 H; [destruct H|]. simpl.
    destruct H as [<-|H].
    - rewrite Hbad. apply Z.
    - destruct (ns_attrib a) as [[k v]|]; [apply IH; exact H|apply Z]. }
  rewrite (G _ _ Hin). reflexivity.
Qed.

End ConstructorMore.

(* ------------------------------------------------------------------ *)
(** ** The further results at concrete inputs *)

Lemma normalizeURL_bad_url_no_write_witness :
  url_resolve (l_url (loose_view w_bad_x)) None = None /\
  normalizeURL w_bad_x None = (w_bad_x, None).
Proof.
  assert (H : url_resolve (l_url (loose_view w_bad_x)) None = None) by (vm_compute; reflexivity).
  exact (conj H (normalizeURL_bad_url_no_write w_bad_x None H)).
Defined.

Lemma normalizeURL_twice_witness :
  normalizeURL (LObj c8_object) None = (w_c8_after, Some w_c8_smi) /\
  normalizeURL w_c8_after None = (w_c8_after, Some w_c8_smi).
Proof.
  assert (H : normalizeURL (LObj c8_object) None = (w_c8_after, Some w_c8_smi))
    by (vm_compute; reflexivity).
  exact (conj H (normalizeURL_twice None (LObj c8_object) w_c8_after w_c8_smi H)).
Defined.

Lemma normalizeURL_copies_fields_witness :
  normalizeURL w_x2 w_base = (w_x2, Some w_smi2) /\
  changefreq w_smi2 = l_changefreq (loose_view w_x2) /\
  priority w_smi2 = l_priority (loose_view w_x2) /\
  lastmodISO w_smi2 = l_lastmodISO (loose_view w_x2) /\
  lastmodfile w_smi2 = l_lastmodfile (loose_view w_x2).
Proof.
  assert (H : normalizeURL w_x2 w_base = (w_x2, Some w_smi2)) by (vm_compute; reflexivity).
  exact (conj H (normalizeURL_copies_fields w_base w_x2 w_x2 w_smi2 H)).
Defined.

Lemma normalizeURL_fails_iff_witness :
  url_resolve (l_url (loose_view w_bad_x)) None = None /\ snd (normalizeURL w_bad_x None) = None.
Proof.
  assert (H : url_resolve (l_url (loose_view w_bad_x)) None = None) by (vm_compute; reflexivity).
  exact (conj H (proj2 (normalizeURL_fails_iff None w_bad_x) (or_introl H))).
Defined.

Lemma normalizeURLs_fails_iff_witness :
  snd (normalizeURL w_bad_x None) = None /\ normalizeURLs [w_abs_x; w_bad_x] None = None.
Proof.
  assert (H : snd (normalizeURL w_bad_x None) = None) by (vm_compute; reflexivity).
  split; [exact H|].
  apply (proj2 (normalizeURLs_fails_iff [w_abs_x; w_bad_x] None)).
  apply Exists_cons_tl. apply Exists_cons_hd. exact H.
Defined.

Lemma normalizeURLs_last_wins_witness :
  normalizeURLs [w_x1; w_x2] w_base = Some w_map /\
  exists smis, omap (fun u => snd (normalizeURL u w_base)) [w_x1; w_x2] = Some smis /\
    map fst w_map = dedup_first (map url smis) /\
    forall k, map_get k w_map = last_with k smis.
Proof.
  assert (H : normalizeURLs [w_x1; w_x2] w_base = Some w_map) by (vm_compute; reflexivity).
  exact (conj H (normalizeURLs_last_wins [w_x1; w_x2] w_base w_map H)).
Defined.

Lemma add_frame_witness :
  add w_site w_x1 None = (w_x1, Some (w_s1, 1%nat)) /\
  exists smi, snd (normalizeURL w_x1 (hostname w_site)) = Some smi /\
    map_get (url smi) (urls w_s1) = Some smi /\
    (forall k, k <> url smi -> map_get k (urls w_s1) = map_get k (urls w_site)) /\
    map fst (urls w_s1) = (if map_has (url smi) (urls w_site) then map fst (urls w_site)
                           else (map fst (urls w_site) ++ [url smi])%list) /\
    1%nat = length (urls w_s1).
Proof.
  assert (H : add w_site w_x1 None = (w_x1, Some (w_s1, 1%nat))) by (vm_compute; reflexivity).
  exact (conj H (add_frame w_site w_x1 None w_x1 w_s1 1 H)).
Defined.

Lemma del_frame_witness :
  map_wf (urls w_s1) /\ del w_s1 w_x1 = (w_x1, Some (w_s3, true)) /\
  exists smi, snd (normalizeURL w_x1 (hostname w_s1)) = Some smi /\
    true = map_has (url smi) (urls w_s1) /\
    map_get (url smi) (urls w_s3) = None /\
    (forall k, k <> url smi -> map_get k (urls w_s3) = map_get k (urls w_s1)) /\
    map fst (urls w_s3) = filter (fun k => negb (String.eqb (url smi) k)) (map fst (urls w_s1)).
Proof.
  assert (W : map_wf (urls w_s1)).
  { vm_compute. constructor; [intros []|constructor]. }
  assert (D : del w_s1 w_x1 = (w_x1, Some (w_s3, true))) by (vm_compute; reflexivity).
  exact (conj W (conj D (del_frame w_s1 w_x1 w_x1 w_s3 true W D))).
Defined.

Lemma del_absent_unchanged_witness :
  normalizeURL w_bad_x (hostname w_s1) = (w_bad_x, Some w_bad_smi) /\
  map_has (url w_bad_smi) (urls w_s1) = false /\
  del w_s1 w_bad_x = (w_bad_x, Some (w_s1, false)).
Proof.
  assert (N : normalizeURL w_bad_x (hostname w_s1) = (w_bad_x, Some w_bad_smi))
    by (vm_compute; reflexivity).
  assert (A : map_has (url w_bad_smi) (urls w_s1) = false) by (vm_compute; reflexivity).
  exact (conj N (conj A (del_absent_unchanged w_s1 w_bad_x w_bad_x _ N A))).
Defined.

Lemma add_then_del_restores_witness :
  snd (normalizeURL w_x1 (hostname w_site)) = Some w_smi1 /\
  map_has (url w_smi1) (urls w_site) = false /\
  add w_site w_x1 None = (w_x1, Some (w_s1, 1%nat)) /\
  exists s2, del w_s1 w_x1 = (w_x1, Some (s2, true)) /\ urls s2 = urls w_site.
Proof.
  assert (N : snd (normalizeURL w_x1 (hostname w_site)) = Some w_smi1) by (vm_compute; reflexivity).
  assert (A : map_has (url w_smi1) (urls w_site) = false) by (vm_compute; reflexivity).
  assert (H : add w_site w_x1 None = (w_x1, Some (w_s1, 1%nat))) by (vm_compute; reflexivity).
  exact (conj N (conj A (conj H (add_then_del_restores w_site w_x1 None w_x1 w_s1 1 w_smi1 N A H)))).
Defined.

Lemma toString_rebuilds_witness :
  isCacheValid w_s1 0 = false /\
  snd (toString w_s1 0 false) = xml_end false (rebuild w_s1) /\
  root_children (root (fst (toString w_s1 0 false))) =
    map (fun kv => buildXML (snd kv)) (urls w_s1).
Proof.
  assert (V : isCacheValid w_s1 0 = false) by (vm_compute; reflexivity).
  destruct (toString_rebuilds w_s1 0 false _ _ V (surjective_pairing _)) as (R & _ & _ & _ & C).
  exact (conj V (conj R C)).
Defined.

Lemma toString_same_within_ttl_witness :
  cacheTime w_ttl_site <> 0%Z /\
  (500 <= cacheSetTimestamp (fst (toString w_ttl_site 0 false)) +
          cacheTime (fst (toString w_ttl_site 0 false)))%Z /\
  snd (toString (fst (toString w_ttl_site 0 false)) 500 true) = snd (toString w_ttl_site 0 false).
Proof.
  assert (C : cacheTime w_ttl_site <> 0%Z) by (vm_compute; discriminate).
  assert (T : (500 <= cacheSetTimestamp (fst (toString w_ttl_site 0 false)) +
                      cacheTime (fst (toString w_ttl_site 0 false)))%Z)
    by (vm_compute; discriminate).
  exact (conj C (conj T (toString_same_within_ttl w_ttl_site 0 500 false true _ _ C
                           (surjective_pairing _) T))).
Defined.

Lemma toString_stable_without_xsl_witness :
  truthy_str (xslUrl w_s1) = false /\ isCacheValid w_s1 0 = false /\
  snd (toString (fst (toString w_s1 0 false)) 5000 false) = snd (toString w_s1 0 false).
Proof.
  assert (X : truthy_str (xslUrl w_s1) = false) by (vm_compute; reflexivity).
  assert (V : isCacheValid w_s1 0 = false) by (vm_compute; reflexivity).
  exact (conj X (conj V (toString_stable_without_xsl w_s1 0 5000 false _ _ X V
                           (surjective_pairing _)))).
Defined.

Lemma toString_namespaces_witness :
  xmlNs w_site = EmptyString /\
  attr_get "xmlns:image" (root_attribs (root (fst (toString w_site 0 false)))) =
    Some "http://www.google.com/schemas/sitemap-image/1.1".
Proof.
  assert (E : xmlNs w_site = EmptyString) by reflexivity.
  split; [exact E|].
  apply (proj1 (toString_namespaces w_site 0 false _ _ (surjective_pairing _)) E).
  simpl. tauto.
Defined.

Lemma stream_stops_on_bad_item_witness :
  Forall2 (emits None WARN) [w_abs_x] [model_item w_abs_smi] /\
  snd (normalizeURL w_bad_x None) = None /\
  run_stream (newSitemapStream None None) ([w_abs_x] ++ w_bad_x :: [w_x1])%list =
    ([preamble; model_item w_abs_smi], false).
Proof.
  assert (F : Forall2 (emits None WARN) [w_abs_x] [model_item w_abs_smi]).
  { constructor; [|constructor]. exists w_abs_smi. split; vm_compute; reflexivity. }
  assert (B : snd (normalizeURL w_bad_x None) = None) by (vm_compute; reflexivity).
  exact (conj F (conj B (stream_stops_on_bad_item None None [w_abs_x] [model_item w_abs_smi]
                           w_bad_x [w_x1] F B))).
Defined.

Lemma ns_attrib_roundtrip_witness :
  ns_attrib ("xmlns" ++ "=" ++ quote "https://example.com/ns") =
    Some ("xmlns", "https://example.com/ns").
Proof.
  refine (proj1 (ns_attrib_roundtrip "xmlns" "https://example.com/ns" _ _ _)).
  - simpl. intros Q. repeat (destruct Q as [Q|Q]; [discriminate Q|]). exact Q.
  - simpl. intros Q. repeat (destruct Q as [Q|Q]; [discriminate Q|]). exact Q.
  - intros c Hc. simpl in Hc. repeat (destruct Hc as [<-|Hc]; [reflexivity|]). destruct Hc.
Defined.

Lemma newSitemap_bad_xmlNs_witness :
  ns_attrib "xmlns" = None /\ newSitemap w_bad_ns_opts = None.
Proof.
  assert (B : ns_attrib "xmlns" = None) by reflexivity.
  split; [exact B|].
  apply (newSitemap_bad_xmlNs w_bad_ns_opts "xmlns" "xmlns").
  - reflexivity.
  - discriminate.
  - left. reflexivity.
  - exact B.
Defined.

